(** * whisper-api: the transcription job scheduler of [main.py]

    A shallow embedding of the FastAPI service in [src/main.py]: the token
    check, the audio normalisation step, the transcription step, the
    single background worker draining an [asyncio.Queue], and the request
    handler that waits on a per-job [asyncio.Future] under a deadline.

    asyncio is cooperative: a coroutine runs without interruption between
    two [await]s that really suspend.  Every such uninterrupted segment of
    [main.py] is one transition of the machine below, and the scheduler's
    freedom is the order of the events in a trace. *)

From Stdlib Require Import ZArith NArith List String Ascii Lia DecimalString.
From stdpp Require Import base option list gmap sets.

Set Warnings "-register-all".

(** ** Python strings *)

(** A [str] is a sequence of Unicode code points. *)
Definition pystr := list N.

Fixpoint lit (s : string) : pystr :=
  match s with
  | EmptyString => []
  | String a r => N_of_ascii a :: lit r
  end.

(** Truth value of a [str]: the empty string is falsy. *)
Definition truthy (s : pystr) : bool :=
  match s with
  | [] => false
  | _ :: _ => true
  end.

(** [a or b] on strings. *)
Definition or_str (a b : pystr) : pystr := if truthy a then a else b.

(** The code points [str.strip()] removes: [str.isspace]. *)
Definition is_space (c : N) : bool :=
  (((9 <=? c) && (c <=? 13)) || ((28 <=? c) && (c <=? 32))
   || (c =? 133) || (c =? 160) || (c =? 5760)
   || ((8192 <=? c) && (c <=? 8202))
   || (c =? 8232) || (c =? 8233) || (c =? 8239) || (c =? 8287) || (c =? 12288))%N.

Fixpoint lstrip (s : pystr) : pystr :=
  match s with
  | [] => []
  | c :: r => if is_space c then lstrip r else s
  end.

Definition rstrip (s : pystr) : pystr := rev (lstrip (rev s)).

Definition strip (s : pystr) : pystr := rstrip (lstrip s).

(** [str(n)] for an [int]. *)
Definition str_of_int (z : Z) : pystr := lit (NilZero.string_of_int (Z.to_int z)).

(** ** Exceptions and fallible results *)

Inductive exn_class :=
  | RuntimeError
  | ValueError
  | UnicodeDecodeError
  | JSONDecodeError
  | AttributeError
  | InvalidStateError
  | TimeoutError
  | CancelledError
  | HTTPException (status_code : Z).

Record exn := Exn { exn_cls : exn_class; exn_msg : pystr }.

(** [isinstance(e, Exception)]: [CancelledError] derives from
    [BaseException] only, every other class here from [Exception]. *)
Definition is_Exception (e : exn) : bool :=
  match exn_cls e with
  | CancelledError => false
  | _ => true
  end.

Inductive result (A : Type) :=
  | Ok (a : A)
  | Raise (e : exn).
Arguments Ok {A} a.
Arguments Raise {A} e.

#[global] Instance result_ret : MRet result := λ A a, Ok a.
#[global] Instance result_fmap : FMap result :=
  λ A B f m, match m with Ok a => Ok (f a) | Raise e => Raise e end.
#[global] Instance result_bind : MBind result :=
  λ A B f m, match m with Ok a => f a | Raise e => Raise e end.

Definition raises {A} (r : result A) : bool :=
  match r with
  | Ok _ => false
  | Raise _ => true
  end.

(** ** Paths ([pathlib.PurePosixPath]) *)

Record Path := mkPath { path_parent : pystr; path_name : pystr }.

#[global] Instance Path_eq_dec : EqDecision Path.
Proof. solve_decision. Defined.

#[global] Instance Path_countable : Countable Path :=
  inj_countable' (λ p, (path_parent p, path_name p))
                 (λ q, mkPath q.1 q.2)
                 (λ p, match p with mkPath _ _ => eq_refl end).

Definition dot : N := 46%N.
Definition slash : N := 47%N.

(** [s.rfind(c)], [None] for -1. *)
Fixpoint rfind (c : N) (s : pystr) : option nat :=
  match s with
  | [] => None
  | x :: r =>
      match rfind c r with
      | Some i => Some (S i)
      | None => if (x =? c)%N then Some O else None
      end
  end.

(** [PurePath.suffix], on the final component. *)
Definition suffix (name : pystr) : pystr :=
  match rfind dot name with
  | Some i => if (0 <? i)%nat && (i <? length name - 1)%nat then drop i name else []
  | None => []
  end.

(** [s.split(sep)] for a one-character separator. *)
Fixpoint split_on (sep : N) (s : pystr) : list pystr :=
  match s with
  | [] => [[]]
  | c :: r =>
      if (c =? sep)%N then [] :: split_on sep r
      else match split_on sep r with
           | [] => [[c]]
           | w :: ws => (c :: w) :: ws
           end
  end.

(** The components [PurePosixPath(s)] keeps: empty ones and ["."] go. *)
Definition path_parts (s : pystr) : list pystr :=
  filter (λ x, x ≠ [] ∧ x ≠ [dot]) (split_on slash s).

(** [PurePosixPath(s).name]. *)
Definition name_of (s : pystr) : pystr := List.last (path_parts s) [].

(** [PurePath.with_suffix].  The texts of its two [ValueError]s are
    shortened: pathlib puts the [repr] of the suffix or of the path in
    them. *)
Definition with_suffix (p : Path) (sfx : pystr) : result Path :=
  if bool_decide (slash ∈ sfx)
     || (truthy sfx && negb (bool_decide (head sfx = Some dot)))
     || bool_decide (sfx = [dot])
  then Raise (Exn ValueError (lit "Invalid suffix"))
  else if negb (truthy (path_name p))
  then Raise (Exn ValueError (lit "path has an empty name"))
  else
    let old_suffix := suffix (path_name p) in
    let name :=
      if negb (truthy old_suffix) then path_name p ++ sfx
      else take (length (path_name p) - length old_suffix) (path_name p) ++ sfx in
    Ok (mkPath (path_parent p) name).

(** ** External processes *)

(** What [bytes.decode()] does to a captured stream: the text, or
    [UnicodeDecodeError] with its reason. *)
Inductive decoded :=
  | Text (s : pystr)
  | Undecodable (reason : pystr).

Definition decode (d : decoded) : result pystr :=
  match d with
  | Text s => Ok s
  | Undecodable r => Raise (Exn UnicodeDecodeError r)
  end.

(** A converter run that was started and has exited, as
    [process.communicate()] returns it, and whether the run left a file
    at the output path. *)
Record ffmpeg_run := FfmpegRun {
  ff_returncode : Z;
  ff_stdout : decoded;
  ff_stderr : decoded;
  ff_wrote_output : bool
}.

(** JSON values as [json.loads] builds them; an object keeps its members
    in document order, the last of equal keys wins in the [dict]. *)
Inductive json :=
  | JNull
  | JBool (b : bool)
  | JInt (z : Z)
  | JFloat (literal : pystr)
  | JStr (s : pystr)
  | JArr (xs : list json)
  | JObj (members : list (pystr * json)).

Fixpoint dict_get (k : pystr) (members : list (pystr * json)) : option json :=
  match members with
  | [] => None
  | (k', v) :: r =>
      match dict_get k r with
      | Some x => Some x
      | None => if bool_decide (k' = k) then Some v else None
      end
  end.

(** [type(v).__name__] of what [json.loads] built. *)
Definition type_name (v : json) : pystr :=
  match v with
  | JNull => lit "NoneType"
  | JBool _ => lit "bool"
  | JInt _ => lit "int"
  | JFloat _ => lit "float"
  | JStr _ => lit "str"
  | JArr _ => lit "list"
  | JObj _ => lit "dict"
  end.

(** [payload.get(k)]: only a [dict] has the method. *)
Definition payload_get (payload : json) (k : pystr) : result (option json) :=
  match payload with
  | JObj members => Ok (dict_get k members)
  | _ => Raise (Exn AttributeError
                  (lit "'" ++ type_name payload ++ lit "' object has no attribute 'get'"))
  end.

(** What is at [<prefix>.json] when the engine has exited, through
    [read_text(encoding="utf-8")] and [json.loads]. *)
Inductive artifact :=
  | NoArtifact
  | BadEncoding (reason : pystr)
  | BadJson (reason : pystr)
  | Json (payload : json).

(** An engine run that was started and has exited. *)
Record whisper_run := WhisperRun {
  wh_returncode : Z;
  wh_stdout : decoded;
  wh_stderr : decoded;
  wh_artifact : artifact
}.

(** ** Futures *)

Inductive Future :=
  | Pending
  | Finished (text : pystr)
  | Failed (e : exn)
  | Cancelled.

Definition done (f : Future) : bool :=
  match f with
  | Pending => false
  | _ => true
  end.

(** The futures of the event loop, by allocation number.
    [loop.create_future()] hands out the next number; a number not yet
    handed out is a future nobody has touched. *)
Definition futures_t := nat → Future.

Definition fut_update (i : nat) (f : Future) (futs : futures_t) : futures_t :=
  λ j, if bool_decide (j = i) then f else futs j.

Definition set_result (i : nat) (text : pystr) (futs : futures_t) : result futures_t :=
  if done (futs i) then Raise (Exn InvalidStateError (lit "invalid state"))
  else Ok (fut_update i (Finished text) futs).

Definition set_exception (i : nat) (e : exn) (futs : futures_t) : result futures_t :=
  if done (futs i) then Raise (Exn InvalidStateError (lit "invalid state"))
  else Ok (fut_update i (Failed e) futs).

(** [Future.cancel()]: no effect on a future that is done. *)
Definition cancel (i : nat) (futs : futures_t) : futures_t :=
  if done (futs i) then futs else fut_update i Cancelled futs.

(** ** The job *)

Record TranscriptionTask := mkTask {
  task_id : pystr;
  audio_path : Path;
  language : option pystr;
  prompt : option pystr;
  future : nat
}.

Record TranscriptionResponse := mkResponse {
  resp_task_id : pystr;
  resp_text : pystr
}.

(** ** The coroutines *)

(** Where the worker coroutine is suspended, or how it ended. *)
Inductive WorkerPc :=
  | AwaitGet
  | Running (t : TranscriptionTask)
  | Stopped
  | Crashed (e : exn).

(** Where a [transcribe_audio] call is suspended, or what it gave back
    to the framework: a response, or the exception it raised. *)
Inductive RequestPc :=
  | Converting (tid : pystr) (source : Path) (lang prm : option pystr)
  | Waiting (tid : pystr) (fut : nat)
  | Returned (r : result TranscriptionResponse).

(** The process: [app.state], the event loop's worker tasks and futures,
    the staged uploads and normalised audio files on disk, and the
    requests in flight.  [submitted] and
    [started] are history: the jobs in the order they were put on the
    queue and in the order a worker took them; no transition reads
    them. *)
Record State := mkState {
  queue : list TranscriptionTask;
  worker_task : option nat;
  tasks : list WorkerPc;
  futures : futures_t;
  next_future : nat;
  fs : gset Path;
  requests : list RequestPc;
  submitted : list TranscriptionTask;
  started : list TranscriptionTask
}.

Definition init (fs0 : gset Path) : State :=
  mkState [] None [] (λ _, Pending) 0 fs0 [] [] [].

(** What the event loop can run next: the startup and shutdown
    handlers; a call of [transcribe_audio] with its header, upload name
    and hints, the [uuid4] it draws and the random part of its temp
    file name; request [rid] resumed by the converter's exit, by its
    future being done, or by the deadline; worker [w] resumed by a job
    on the queue or by the engine's exit. *)
Inductive Event :=
  | EvStartup
  | EvShutdown
  | EvRequest (authorization : pystr) (filename : option pystr)
              (lang prm : option pystr) (uuid rnd : pystr)
  | EvConverted (rid : nat) (run : ffmpeg_run)
  | EvDeliver (rid : nat)
  | EvTimeout (rid : nat)
  | EvWorkerGet (w : nat)
  | EvWhisperDone (w : nat) (run : whisper_run).

Section Service.

(** Module-level configuration, read from the environment at import. *)
Variable API_TOKEN : pystr.
(** [tempfile.gettempdir()]. *)
Variable TMPDIR : pystr.

Definition verify_token (authorization : pystr) : result unit :=
  let expected := lit "Bearer " ++ API_TOKEN in
  if negb (truthy API_TOKEN) || negb (bool_decide (authorization = expected))
  then Raise (Exn (HTTPException 401) (lit "Invalid or missing bearer token"))
  else Ok ().

Definition convert_audio_to_whisper_format
    (source_path : Path) (run : ffmpeg_run) (disk : gset Path)
  : gset Path * result Path :=
  match with_suffix source_path (lit ".normalized.wav") with
  | Raise e => (disk, Raise e)
  | Ok normalized_path =>
      let disk' := if ff_wrote_output run then {[ normalized_path ]} ∪ disk else disk in
      if negb (ff_returncode run =? 0)%Z || negb (bool_decide (normalized_path ∈ disk'))
      then (disk',
            err ← strip <$> decode (ff_stderr run);
            detail ← (if truthy err then Ok err
                      else out ← strip <$> decode (ff_stdout run);
                           Ok (or_str out (lit "unknown ffmpeg error")));
            Raise (Exn RuntimeError (lit "audio conversion failed: " ++ detail)))
      else (disk', Ok normalized_path)
  end.

(** The engine writes its artifact into a [TemporaryDirectory] of the
    call, gone when the call ends; [run] is what the call saw.  That
    directory is created and removed by its own [with] block and is not
    among the files of [fs]. *)
Definition run_whisper (task : TranscriptionTask) (run : whisper_run) : result pystr :=
  if negb (wh_returncode run =? 0)%Z
  then
    err ← strip <$> decode (wh_stderr run);
    detail ← (if truthy err then Ok err else strip <$> decode (wh_stdout run));
    Raise (Exn RuntimeError
             (lit "whisper.cpp failed with code " ++ str_of_int (wh_returncode run)
              ++ lit ": " ++ detail))
  else
    match wh_artifact run with
    | NoArtifact => Raise (Exn RuntimeError (lit "whisper.cpp did not create JSON output"))
    | BadEncoding r => Raise (Exn UnicodeDecodeError r)
    | BadJson r => Raise (Exn JSONDecodeError r)
    | Json payload =>
        text ← payload_get payload (lit "text");
        match text with
        | Some (JStr s) => Ok (strip s)
        | _ => Raise (Exn RuntimeError (lit "JSON output missing transcription text"))
        end
    end.

(** One turn of the worker's loop after [queue.get()] returned [task]:
    the [try] and [except Exception] blocks.  [Raise] is an exception
    that leaves the [try] statement. *)
Definition worker_try (task : TranscriptionTask) (run : whisper_run)
    (futs : futures_t) : result futures_t :=
  let attempt :=
    text ← run_whisper task run;
    if negb (done (futs (future task))) then set_result (future task) text futs
    else Ok futs in
  match attempt with
  | Ok futs' => Ok futs'
  | Raise exc =>
      if is_Exception exc then
        if negb (done (futs (future task))) then set_exception (future task) exc futs
        else Ok futs
      else Raise exc
  end.

(** The [finally] block: [task.audio_path.unlink(missing_ok=True)],
    taken to succeed: the input is the file the converter wrote, and an
    [OSError] of the operating system on removing it is not part of the
    machine.  ([queue.task_done()] only counts for [queue.join()],
    which nothing calls.) *)
Definition worker_finally (task : TranscriptionTask) (disk : gset Path) : gset Path :=
  disk ∖ {[ audio_path task ]}.

Definition set_worker (w : nat) (pc : WorkerPc) (s : State) : State :=
  mkState (queue s) (worker_task s) (<[w := pc]> (tasks s)) (futures s)
          (next_future s) (fs s) (requests s) (submitted s) (started s).

Definition set_request (rid : nat) (pc : RequestPc) (s : State) : State :=
  mkState (queue s) (worker_task s) (tasks s) (futures s)
          (next_future s) (fs s) (<[rid := pc]> (requests s)) (submitted s) (started s).

Definition set_fs (disk : gset Path) (s : State) : State :=
  mkState (queue s) (worker_task s) (tasks s) (futures s)
          (next_future s) disk (requests s) (submitted s) (started s).

Definition set_futures (futs : futures_t) (s : State) : State :=
  mkState (queue s) (worker_task s) (tasks s) futs
          (next_future s) (fs s) (requests s) (submitted s) (started s).

(** [worker()] resumed with the engine's exit. *)
Definition worker_resume (w : nat) (run : whisper_run) (s : State) : State :=
  match tasks s !! w with
  | Some (Running task) =>
      let s' := set_fs (worker_finally task (fs s)) s in
      match worker_try task run (futures s) with
      | Ok futs => set_worker w AwaitGet (set_futures futs s')
      | Raise e => set_worker w (Crashed e) s'
      end
  | _ => s
  end.

(** [task = await queue.get()] returning: the oldest job leaves the
    queue and [run_whisper] starts on it. *)
Definition worker_get (w : nat) (s : State) : State :=
  match tasks s !! w, queue s with
  | Some AwaitGet, task :: rest =>
      mkState rest (worker_task s) (<[w := Running task]> (tasks s)) (futures s)
              (next_future s) (fs s) (requests s) (submitted s) (started s ++ [task])
  | _, _ => s
  end.

(** [Task.cancel()] reaching the worker: [CancelledError] is raised at
    the [await] it is suspended on.  At [queue.get()] that is outside
    the [try]; inside [run_whisper] the [except Exception] clause does
    not match and the [finally] block runs. *)
Definition cancel_worker (w : nat) (s : State) : State :=
  match tasks s !! w with
  | Some AwaitGet => set_worker w Stopped s
  | Some (Running task) => set_worker w Stopped (set_fs (worker_finally task (fs s)) s)
  | _ => s
  end.

Definition startup_event (s : State) : result State :=
  if negb (truthy API_TOKEN)
  then Raise (Exn RuntimeError (lit "API_TOKEN environment variable is required"))
  else
    match worker_task s with
    | None =>
        Ok (mkState (queue s) (Some (length (tasks s))) (tasks s ++ [AwaitGet]) (futures s)
                    (next_future s) (fs s) (requests s) (submitted s) (started s))
    | Some _ => Ok s
    end.

Definition shutdown_event (s : State) : State :=
  match worker_task s with
  | Some w => cancel_worker w s
  | None => s
  end.

(** [Path(file.filename or "audio").suffix or ".tmp"]. *)
Definition source_suffix (filename : option pystr) : pystr :=
  or_str (suffix (name_of (or_str (default [] filename) (lit "audio")))) (lit ".tmp").

(** The name [NamedTemporaryFile(delete=False, suffix=...)] creates;
    [rnd] is the random middle part. *)
Definition staged_path (rnd : pystr) (sfx : pystr) : Path :=
  mkPath TMPDIR (lit "tmp" ++ rnd ++ sfx).

(** [transcribe_audio] from the call to its first suspension, the
    [await] of the converter.  Creating and filling the temp file is
    taken to succeed, and so is starting the converter. *)
Definition transcribe_begin (authorization : pystr) (filename : option pystr)
    (lang prm : option pystr) (uuid rnd : pystr) (s : State) : State :=
  match verify_token authorization with
  | Raise e =>
      mkState (queue s) (worker_task s) (tasks s) (futures s) (next_future s) (fs s)
              (requests s ++ [Returned (Raise e)]) (submitted s) (started s)
  | Ok _ =>
      let source_audio_path := staged_path rnd (source_suffix filename) in
      mkState (queue s) (worker_task s) (tasks s) (futures s) (next_future s)
              ({[ source_audio_path ]} ∪ fs s)
              (requests s ++ [Converting uuid source_audio_path lang prm])
              (submitted s) (started s)
  end.

(** From the converter's exit to the [await] on the future: the check
    of the run, the [finally] that unlinks the staged upload, the new
    future and the [put]. *)
Definition transcribe_converted (rid : nat) (run : ffmpeg_run) (s : State) : State :=
  match requests s !! rid with
  | Some (Converting tid source lang prm) =>
      let '(disk, r) := convert_audio_to_whisper_format source run (fs s) in
      let disk := disk ∖ {[ source ]} in
      match r with
      | Raise e => set_request rid (Returned (Raise e)) (set_fs disk s)
      | Ok normalized_audio_path =>
          let fut := next_future s in
          let task := mkTask tid normalized_audio_path lang prm fut in
          mkState (queue s ++ [task]) (worker_task s) (tasks s) (futures s) (S fut) disk
                  (<[rid := Waiting tid fut]> (requests s))
                  (submitted s ++ [task]) (started s)
      end
  | _ => s
  end.

(** [Future.result()] of a future that is done. *)
Definition future_result (f : Future) : result pystr :=
  match f with
  | Finished text => Ok text
  | Failed e => Raise e
  | Cancelled | Pending => Raise (Exn CancelledError [])
  end.

(** The [try]/[except] around [wait_for] and the final [return]. *)
Definition transcribe_reply (tid : pystr) (outcome : result pystr)
  : result TranscriptionResponse :=
  match outcome with
  | Ok text => Ok (mkResponse tid text)
  | Raise exc =>
      match exn_cls exc with
      | TimeoutError => Raise (Exn (HTTPException 504) (lit "Transcription timed out"))
      | CancelledError => Raise exc
      | _ => Raise (Exn (HTTPException 500) (exn_msg exc))
      end
  end.

(** [wait_for] returning because the future is done. *)
Definition transcribe_deliver (rid : nat) (s : State) : State :=
  match requests s !! rid with
  | Some (Waiting tid fut) =>
      if done (futures s fut)
      then set_request rid (Returned (transcribe_reply tid (future_result (futures s fut)))) s
      else s
  | _ => s
  end.

(** [wait_for] at the deadline with the future still pending: it cancels
    the future and raises [TimeoutError]. *)
Definition transcribe_timeout (rid : nat) (s : State) : State :=
  match requests s !! rid with
  | Some (Waiting tid fut) =>
      if done (futures s fut) then s
      else set_request rid
             (Returned (transcribe_reply tid (Raise (Exn TimeoutError []))))
             (set_futures (cancel fut (futures s)) s)
  | _ => s
  end.

Definition step (s : State) (e : Event) : State :=
  match e with
  | EvStartup => match startup_event s with Ok s' => s' | Raise _ => s end
  | EvShutdown => shutdown_event s
  | EvRequest a f l p u r => transcribe_begin a f l p u r s
  | EvConverted rid run => transcribe_converted rid run s
  | EvDeliver rid => transcribe_deliver rid s
  | EvTimeout rid => transcribe_timeout rid s
  | EvWorkerGet w => worker_get w s
  | EvWhisperDone w run => worker_resume w run s
  end.

Definition exec (s : State) (evs : list Event) : State := fold_left step evs s.

(** ** The scheduling invariant *)

Definition all_done (futs : futures_t) (jobs : list TranscriptionTask) : Prop :=
  Forall (λ t, done (futs (future t)) = true) jobs.

(** What the one worker's position says about the jobs taken so far:
    waiting for the next job, every job it took has a future that is
    done; running a job, that job is the last one taken and all earlier
    ones have a future that is done. *)
Definition worker_ok (s : State) (pc : WorkerPc) : Prop :=
  match pc with
  | AwaitGet => all_done (futures s) (started s)
  | Running t => ∃ prev, started s = prev ++ [t] ∧ all_done (futures s) prev
  | Stopped | Crashed _ => True
  end.

Definition Inv (s : State) : Prop :=
  submitted s = started s ++ queue s
  ∧ ((worker_task s = None ∧ tasks s = [] ∧ started s = [])
     ∨ (∃ pc, worker_task s = Some 0 ∧ tasks s = [pc] ∧ worker_ok s pc)).

(** Jobs and futures are created together: the job submitted as number
    [i] carries future [i], and a handler waiting on a future waits on
    the future of the job it built. *)
Definition Inv_jobs (s : State) : Prop :=
  next_future s = length (submitted s)
  ∧ (∀ i t, submitted s !! i = Some t → future t = i)
  ∧ (∀ rid tid fut, requests s !! rid = Some (Waiting tid fut) →
       ∃ t, submitted s !! fut = Some t ∧ task_id t = tid).

Definition has_value (f : Future) : bool :=
  match f with
  | Finished _ | Failed _ => true
  | Pending | Cancelled => false
  end.

(** Who may have touched a future: none that is not handed out yet; a
    handler waits on a future it was handed and has not cancelled, and
    no two handlers wait on the same one; a future holds a value only
    when its job was taken by the worker and is no longer being run. *)
Definition Inv_wait (s : State) : Prop :=
  (∀ i, next_future s ≤ i → futures s i = Pending)
  ∧ (∀ rid tid fut, requests s !! rid = Some (Waiting tid fut) →
       fut < next_future s ∧ futures s fut ≠ Cancelled)
  ∧ (∀ rid rid' tid tid' fut,
       requests s !! rid = Some (Waiting tid fut) →
       requests s !! rid' = Some (Waiting tid' fut) → rid = rid')
  ∧ (∀ i, has_value (futures s i) = true →
       i < length (started s)
       ∧ ∀ w t, tasks s !! w = Some (Running t) → future t ≠ i).

(** What a successfully written artifact says the transcription is. *)
Definition artifact_text (a : artifact) : option pystr :=
  match a with
  | Json (JObj members) =>
      match dict_get (lit "text") members with
      | Some (JStr s) => Some s
      | _ => None
      end
  | _ => None
  end.

(** The worker left alone for one turn per run: take a job, finish it. *)
Definition worker_turns (w : nat) (runs : list whisper_run) : list Event :=
  flat_map (λ run, [EvWorkerGet w; EvWhisperDone w run]) runs.

Definition is_running (pc : WorkerPc) : bool :=
  match pc with
  | Running _ => true
  | _ => false
  end.

(** The worker has been cancelled while [app.state.worker_task] still
    holds its task. *)
Definition halted (s : State) : Prop :=
  is_Some (worker_task s) ∧ Forall (λ pc, pc = Stopped) (tasks s).

(** How a call of [transcribe_audio] ends in the machine, where the
    upload has been staged and the converter started: the response, one
    of the three [HTTPException]s of the module, or an exception of the
    normalisation step left to the framework. *)
Definition reply_kind (r : result TranscriptionResponse) : bool :=
  match r with
  | Ok _ => true
  | Raise e =>
      match exn_cls e with
      | HTTPException code => (code =? 401)%Z || (code =? 500)%Z || (code =? 504)%Z
      | RuntimeError | UnicodeDecodeError => true
      | _ => false
      end
  end.

Definition Inv_reply (s : State) : Prop :=
  (∀ rid r, requests s !! rid = Some (Returned r) → reply_kind r = true)
  ∧ (∀ i e, futures s i = Failed e → is_Exception e = true)
  ∧ (∀ rid tid source lang prm,
       requests s !! rid = Some (Converting tid source lang prm) → path_name source ≠ []).

(** With no token configured: nothing but refused requests. *)
Definition inert (fs0 : gset Path) (s : State) : Prop :=
  worker_task s = None ∧ tasks s = [] ∧ queue s = [] ∧ fs s = fs0
  ∧ next_future s = 0
  ∧ Forall (λ pc, pc = Returned (Raise (Exn (HTTPException 401)
                                          (lit "Invalid or missing bearer token"))))
           (requests s).

(** A string that neither starts nor ends with a whitespace character. *)
Definition trimmed (s : pystr) : Prop :=
  (∀ c r, s = c :: r → is_space c = false)
  ∧ (∀ c r, s = r ++ [c] → is_space c = false).

(** ** The command lines *)

(** [str(p)] for a path given by its directory and its name. *)
Definition path_str (p : Path) : pystr :=
  match path_parent p with
  | [] => path_name p
  | _ :: _ =>
      if bool_decide (path_parent p = [slash]) then slash :: path_name p
      else path_parent p ++ slash :: path_name p
  end.

(** The executables and the model, read from the environment at import. *)
Variable FFMPEG_BIN : pystr.
Variable WHISPER_CPP_BIN : pystr.
Variable WHISPER_MODEL_PATH : pystr.

(** The [cmd] of [convert_audio_to_whisper_format]. *)
Definition ffmpeg_cmd (source_path normalized_path : Path) : list pystr :=
  [FFMPEG_BIN; lit "-y"; lit "-i"; path_str source_path;
   lit "-ac"; lit "1"; lit "-ar"; lit "16000"; lit "-c:a"; lit "pcm_s16le";
   path_str normalized_path].

(** [if hint: cmd.extend([flag, hint])]. *)
Definition extend_if (hint : option pystr) (flag : pystr) (cmd : list pystr)
  : list pystr :=
  match hint with
  | Some h => if truthy h then cmd ++ [flag; h] else cmd
  | None => cmd
  end.

(** The [cmd] of [run_whisper], for the [output_prefix] inside its
    temporary directory. *)
Definition whisper_cmd (task : TranscriptionTask) (output_prefix : pystr)
  : list pystr :=
  let cmd := [WHISPER_CPP_BIN; lit "-m"; WHISPER_MODEL_PATH;
              lit "-f"; path_str (audio_path task);
              lit "-oj"; lit "-of"; output_prefix] in
  let cmd := extend_if (language task) (lit "-l") cmd in
  extend_if (prompt task) (lit "--prompt") cmd.

(** ** A sample run

    One authorised upload of [memo.mp3] on a service configured with
    the token [s3cret], used to exercise the statements below. *)

Definition sample_token : pystr := lit "s3cret".
Definition sample_tmpdir : pystr := lit "/tmp".

Definition sample_request : Event :=
  EvRequest (lit "Bearer s3cret") (Some (lit "memo.mp3")) None None
            (lit "job-1") (lit "k3x9q_ab").

Definition ffmpeg_ok : ffmpeg_run := FfmpegRun 0 (Text []) (Text []) true.

Definition ffmpeg_failed : ffmpeg_run :=
  FfmpegRun 1 (Text []) (Text (lit "Invalid data found when processing input")) false.

Definition whisper_ok : whisper_run :=
  WhisperRun 0 (Text []) (Text [])
    (Json (JObj [(lit "text", JStr (lit " hello world "))])).

Definition whisper_failed : whisper_run :=
  WhisperRun 1 (Text []) (Text (lit "failed to load model")) NoArtifact.

Definition sample_source : Path := mkPath (lit "/tmp") (lit "tmpk3x9q_ab.mp3").

Definition sample_job : TranscriptionTask :=
  mkTask (lit "job-1") (mkPath (lit "/tmp") (lit "tmpk3x9q_ab.normalized.wav"))
         None None 0.

(** The upload is staged and the converter is running. *)
Definition trace_converting : list Event := [EvStartup; sample_request].

(** The job is on the queue and its handler waits. *)
Definition trace_waiting : list Event := trace_converting ++ [EvConverted 0 ffmpeg_ok].

(** The worker has taken the job. *)
Definition trace_running : list Event := trace_waiting ++ [EvWorkerGet 0].

(** The deadline passed before the worker took the job. *)
Definition trace_abandoned : list Event := trace_waiting ++ [EvTimeout 0; EvWorkerGet 0].

(** A second upload, without a file name and with a language hint. *)
Definition sample_request2 : Event :=
  EvRequest (lit "Bearer s3cret") None (Some (lit "de")) None
            (lit "job-2") (lit "z7w2m_cd").

Definition sample_job2 : TranscriptionTask :=
  mkTask (lit "job-2") (mkPath (lit "/tmp") (lit "tmpz7w2m_cd.normalized.wav"))
         (Some (lit "de")) None 1.

(** Both jobs are on the queue. *)
Definition trace_two_waiting : list Event :=
  [EvStartup; sample_request; sample_request2;
   EvConverted 0 ffmpeg_ok; EvConverted 1 ffmpeg_ok].

Definition ffmpeg_failed_after_writing : ffmpeg_run :=
  FfmpegRun 1 (Text []) (Text (lit "Conversion failed!")) true.

Definition gateway_timeout : exn :=
  Exn (HTTPException 504) (lit "Transcription timed out").

(** ** Strings and paths *)

Lemma rfind_None c s : rfind c s = None → c ∉ s.
Proof.
  induction s as [|x r IH]; simpl; [intros _; apply not_elem_of_nil|].
  destruct (rfind c r); [discriminate|].
  destruct (N.eqb_spec x c); [discriminate|].
  intros _ [->|?]%elem_of_cons; [congruence|]. by apply IH.
Qed.

Lemma rfind_Some c s i :
  rfind c s = Some i → ∃ rest, drop i s = c :: rest ∧ c ∉ rest.
Proof.
  revert i. induction s as [|x r IH]; simpl; [discriminate|].
  intros i. destruct (rfind c r) as [j|] eqn:Hr.
  - intros [= <-]. simpl. by apply IH.
  - destruct (N.eqb_spec x c) as [->|]; [|discriminate].
    intros [= <-]. exists r. split; [done|]. by apply rfind_None.
Qed.

(** A suffix is empty or starts at the last dot of the name. *)
Lemma suffix_spec name :
  suffix name = [] ∨
  ∃ stem rest, name = stem ++ dot :: rest ∧ suffix name = dot :: rest ∧ dot ∉ rest.
Proof.
  unfold suffix. destruct (rfind dot name) as [i|] eqn:Hr; [|by left].
  destruct (_ && _); [|by left].
  right. destruct (rfind_Some _ _ _ Hr) as (rest & Hd & Hn).
  exists (take i name), rest. split_and!; [|done..].
  by rewrite <- Hd, take_drop.
Qed.

(** The normalised artifact never has the name of the file it was
    derived from. *)
Lemma with_suffix_normalized_ne p q :
  with_suffix p (lit ".normalized.wav") = Ok q → q ≠ p.
Proof.
  unfold with_suffix.
  set (sfx := lit ".normalized.wav").
  replace (bool_decide (slash ∈ sfx) || _ || _) with false by (by vm_compute).
  destruct (negb (truthy (path_name p))); [discriminate|].
  destruct (suffix_spec (path_name p)) as [->|(stem & rest & Hn & -> & Hdot)]; simpl.
  - intros [= <-] Heq. apply (f_equal path_name), (f_equal length) in Heq.
    simpl in Heq. rewrite length_app in Heq. simpl in Heq. lia.
  - intros [= <-] Heq. apply (f_equal path_name) in Heq. simpl in Heq.
    rewrite Hn in Heq at 2. rewrite Hn in Heq.
    rewrite length_app in Heq. simpl in Heq.
    replace (length stem + S (length rest) - S (length rest)) with (length stem) in Heq by lia.
    rewrite take_app_length in Heq.
    apply app_inv_head in Heq. injection Heq as <-.
    apply Hdot. vm_compute. set_solver.
Qed.

Lemma with_suffix_normalized_ok p :
  path_name p ≠ [] → ∃ q, with_suffix p (lit ".normalized.wav") = Ok q.
Proof.
  intros Hn. unfold with_suffix.
  replace (bool_decide (slash ∈ lit ".normalized.wav") || _ || _) with false
    by (by vm_compute).
  destruct (path_name p); [done|]. simpl. eauto.
Qed.

(** ** The two collaborators *)

(** Whatever [run_whisper] raises is an [Exception], and never a
    [TimeoutError]. *)
Lemma run_whisper_raises_Exception task run e :
  run_whisper task run = Raise e →
  is_Exception e = true ∧ exn_cls e ≠ TimeoutError ∧ exn_cls e ≠ CancelledError.
Proof.
  unfold run_whisper.
  destruct (negb _).
  - destruct (wh_stderr run) as [err|]; simpl; [|by intros [= <-]].
    destruct (truthy (strip err)); simpl; [by intros [= <-]|].
    destruct (wh_stdout run); simpl; by intros [= <-].
  - destruct (wh_artifact run) as [| | |payload]; try by intros [= <-].
    destruct payload; simpl; try by intros [= <-].
    destruct (dict_get _ _) as [[]|]; by intros [= <-].
Qed.

(** A run with a non-zero exit status always raises. *)
Lemma run_whisper_nonzero task run :
  wh_returncode run ≠ 0%Z → ∃ e, run_whisper task run = Raise e.
Proof.
  intros Hrc. unfold run_whisper.
  destruct (Z.eqb_spec (wh_returncode run) 0); [done|]. simpl.
  destruct (wh_stderr run) as [err|]; simpl; [|eauto].
  destruct (truthy (strip err)); simpl; [eauto|].
  destruct (wh_stdout run); simpl; eauto.
Qed.

(** A successful exit raises exactly when the artifact is missing,
    unreadable, or has no string under ["text"]. *)
Lemma run_whisper_zero task run :
  wh_returncode run = 0%Z →
  match wh_artifact run with
  | Json (JObj members) =>
      match dict_get (lit "text") members with
      | Some (JStr s) => run_whisper task run = Ok (strip s)
      | _ => ∃ e, run_whisper task run = Raise e
      end
  | _ => ∃ e, run_whisper task run = Raise e
  end.
Proof.
  intros Hrc. unfold run_whisper. rewrite Hrc. simpl.
  destruct (wh_artifact run) as [| | |payload]; eauto.
  destruct payload; simpl; eauto.
  destruct (dict_get _ _) as [[]|]; eauto.
Qed.

(** ** The worker's turn *)

(** The guards make both branches of the [try] statement safe: nothing
    leaves it. *)
Lemma worker_try_total task run futs : ∃ futs', worker_try task run futs = Ok futs'.
Proof.
  unfold worker_try, set_result, set_exception.
  destruct (run_whisper task run) as [text|e] eqn:Hrun; simpl.
  - destruct (done (futs (future task))); simpl; eauto.
  - destruct (run_whisper_raises_Exception _ _ _ Hrun) as (-> & _).
    destruct (done (futs (future task))); simpl; eauto.
Qed.

(** On a future that is done, a turn changes no future. *)
Lemma worker_try_done task run futs :
  done (futs (future task)) = true → worker_try task run futs = Ok futs.
Proof.
  intros Hd. unfold worker_try.
  destruct (run_whisper task run) as [text|e] eqn:Hrun; simpl; rewrite Hd; simpl; [done|].
  by destruct (run_whisper_raises_Exception _ _ _ Hrun) as (-> & _).
Qed.

(** On a pending future, a turn stores the outcome of the run. *)
Lemma worker_try_pending task run futs :
  futs (future task) = Pending →
  worker_try task run futs =
    Ok (fut_update (future task)
          (match run_whisper task run with Ok text => Finished text | Raise e => Failed e end)
          futs).
Proof.
  intros Hp. unfold worker_try, set_result, set_exception.
  destruct (run_whisper task run) as [text|e] eqn:Hrun; simpl; rewrite Hp; simpl; [done|].
  by destruct (run_whisper_raises_Exception _ _ _ Hrun) as (-> & _).
Qed.

Lemma worker_try_stable task run futs futs' i :
  worker_try task run futs = Ok futs' →
  done (futs i) = true → futs' i = futs i.
Proof.
  intros Htry Hd.
  destruct (done (futs (future task))) eqn:Hdt.
  - rewrite worker_try_done in Htry by done. congruence.
  - assert (futs (future task) = Pending) as Hp by (by destruct (futs (future task))).
    rewrite worker_try_pending in Htry by done. injection Htry as <-.
    unfold fut_update. case_bool_decide; [subst; congruence|done].
Qed.

Lemma worker_try_done_after task run futs futs' :
  worker_try task run futs = Ok futs' → done (futs' (future task)) = true.
Proof.
  intros Htry.
  destruct (done (futs (future task))) eqn:Hdt.
  - rewrite worker_try_done in Htry by done. congruence.
  - assert (futs (future task) = Pending) as Hp by (by destruct (futs (future task))).
    rewrite worker_try_pending in Htry by done. injection Htry as <-.
    unfold fut_update. rewrite bool_decide_eq_true_2 by done.
    by destruct (run_whisper task run).
Qed.

(** ** Transitions and futures *)

Ltac unfold_step :=
  cbv beta iota delta
    [step startup_event shutdown_event cancel_worker transcribe_begin
     transcribe_converted transcribe_deliver transcribe_timeout worker_get
     worker_resume set_worker set_request set_fs set_futures] in *.

(** No transition changes a future that is done. *)
Lemma step_done_stable s e i :
  done (futures s i) = true → futures (step s e) i = futures s i.
Proof.
  intros Hd. destruct e; unfold_step; repeat case_match; simplify_eq/=; try done.
  - unfold cancel. case_match; [done|].
    unfold fut_update. case_bool_decide; [subst; congruence|done].
  - eauto using worker_try_stable.
Qed.

Lemma exec_done_stable s evs i :
  done (futures s i) = true → futures (exec s evs) i = futures s i.
Proof.
  unfold exec. revert s. induction evs as [|e evs IH]; intros s Hd; simpl; [done|].
  rewrite IH; rewrite step_done_stable; done.
Qed.

Lemma exec_snoc s evs e : exec s (evs ++ [e]) = step (exec s evs) e.
Proof. unfold exec. by rewrite fold_left_app. Qed.

(** C1: a completion slot leaves the unresolved state at most once.
    Once a future is done no sequence of transitions changes it; a
    pending future gets a value only from the worker that runs its job,
    a result or an exception according to the one outcome of the run,
    and otherwise only stops being pending when the waiting handler
    cancels it at the deadline; and the worker's attempt on a future
    that is already done, cancelled ones included, changes no future. *)
Theorem completion_resolved_once :
  (∀ s evs i, done (futures s i) = true → futures (exec s evs) i = futures s i)
  ∧ (∀ s e i, futures s i = Pending → futures (step s e) i ≠ Pending →
       (∃ w run task,
           e = EvWhisperDone w run ∧ tasks s !! w = Some (Running task)
           ∧ future task = i
           ∧ futures (step s e) i =
               match run_whisper task run with
               | Ok text => Finished text
               | Raise x => Failed x
               end)
       ∨ (∃ rid tid,
           e = EvTimeout rid ∧ requests s !! rid = Some (Waiting tid i)
           ∧ futures (step s e) i = Cancelled))
  ∧ (∀ s w run task,
       tasks s !! w = Some (Running task) →
       done (futures s (future task)) = true →
       futures (step s (EvWhisperDone w run)) = futures s
       ∧ tasks (step s (EvWhisperDone w run)) !! w = Some AwaitGet).
Proof.
  split_and!.
  - apply exec_done_stable.
  - intros s e i Hp Hnp.
    destruct e; try (unfold_step; repeat case_match; simplify_eq/=; congruence).
    + right. simpl in *. unfold transcribe_timeout in *.
      destruct (requests s !! rid) as [[| tid fut |]|] eqn:Hr; try congruence.
      destruct (done (futures s fut)) eqn:Hdf; [congruence|]. simpl in *.
      unfold cancel, fut_update in *. rewrite Hdf in *.
      case_bool_decide; [subst|congruence]. eauto 6.
    + left. simpl in *. unfold worker_resume in *.
      destruct (tasks s !! w) as [[| task | |]|] eqn:Hw; try congruence.
      destruct (decide (future task = i)) as [<-|Hne].
      * rewrite worker_try_pending in * by done. simpl in *.
        do 3 eexists. split_and!; [done..|].
        unfold fut_update. by rewrite bool_decide_eq_true_2.
      * destruct (done (futures s (future task))) eqn:Hdt.
        -- rewrite worker_try_done in * by done. simpl in *. congruence.
        -- assert (futures s (future task) = Pending) as Hpt
             by (by destruct (futures s (future task))).
           rewrite worker_try_pending in * by done. simpl in *.
           unfold fut_update in Hnp. rewrite bool_decide_eq_false_2 in Hnp; done.
  - intros s w run task Hw Hd. simpl. unfold worker_resume. rewrite Hw.
    rewrite worker_try_done by done. simpl. split; [done|].
    apply list_lookup_insert_eq. by eapply lookup_lt_Some.
Qed.

(** ** Cleanup by the worker *)

(** C3: the worker removes the input of the job it ran whatever the run
    gave and whatever state the job's future is in; no other file is
    touched. *)
Theorem worker_unlinks_input s w run task :
  tasks s !! w = Some (Running task) →
  let s' := step s (EvWhisperDone w run) in
  (audio_path task ∉ fs s')
  ∧ fs s' = fs s ∖ {[ audio_path task ]}
  ∧ tasks s' !! w = Some AwaitGet.
Proof.
  intros Hw. simpl. unfold worker_resume. rewrite Hw.
  destruct (worker_try_total task run (futures s)) as [futs' ->]. simpl.
  unfold worker_finally. split_and!; [set_solver|done|].
  apply list_lookup_insert_eq. by eapply lookup_lt_Some.
Qed.

(** ** The token check *)

(** C10: the check raises the 401 exactly when the configured token is
    empty or the header is not ["Bearer "] followed by the token, and
    passes otherwise; with an empty token every header is refused. *)
Theorem verify_token_rejects authorization :
  let unauthorized := Exn (HTTPException 401) (lit "Invalid or missing bearer token") in
  (verify_token authorization = Raise unauthorized
     ↔ API_TOKEN = [] ∨ authorization ≠ lit "Bearer " ++ API_TOKEN)
  ∧ (verify_token authorization = Ok ()
     ↔ API_TOKEN ≠ [] ∧ authorization = lit "Bearer " ++ API_TOKEN)
  ∧ (API_TOKEN = [] → verify_token authorization = Raise unauthorized).
Proof.
  unfold verify_token. destruct API_TOKEN as [|c tok]; simpl.
  - split_and!; [naive_solver..|done].
  - case_bool_decide; simpl; split_and!; naive_solver.
Qed.

(** ** One worker, jobs in order *)

Lemma all_done_mono futs futs' jobs :
  (∀ i, done (futs i) = true → futs' i = futs i) →
  all_done futs jobs → all_done futs' jobs.
Proof.
  intros Hst Hall. unfold all_done. eapply Forall_impl; [exact Hall|].
  intros t Hd. simpl. by rewrite Hst.
Qed.

Lemma worker_ok_mono s s' pc :
  started s' = started s →
  (∀ i, done (futures s i) = true → futures s' i = futures s i) →
  worker_ok s pc → worker_ok s' pc.
Proof.
  intros Hs Hst. destruct pc; simpl; rewrite ?Hs; [|intros (prev & ? & ?); exists prev|done..];
    eauto using all_done_mono.
Qed.

Lemma init_Inv fs0 : Inv (init fs0).
Proof. split; [done|]. left. done. Qed.

Lemma step_Inv s e : Inv s → Inv (step s e).
Proof.
  intros [Hq Hw]. destruct e.
  - (* startup *)
    simpl. unfold startup_event. destruct (negb (truthy API_TOKEN)); [by split|].
    destruct Hw as [(Hn & Ht & Hs)|(pc & Hn & Ht & Hok)]; rewrite Hn.
    + split; [done|]. right. exists AwaitGet. simpl. rewrite Ht, Hs.
      split_and!; [done..|]. constructor.
    + split; [done|]. right. eauto.
  - (* shutdown *)
    simpl. unfold shutdown_event.
    destruct Hw as [(Hn & Ht & Hs)|(pc & Hn & Ht & Hok)]; rewrite Hn.
    + split; [done|]. by left.
    + unfold cancel_worker. rewrite Ht. simpl.
      destruct pc; unfold set_worker, set_fs; simpl; (split; [done|]); right.
      * exists Stopped. by rewrite Ht.
      * exists Stopped. by rewrite Ht.
      * by exists Stopped.
      * by exists (Crashed e).
  - (* a request arrives *)
    simpl. unfold transcribe_begin.
    destruct (verify_token authorization); (split; [done|]);
      (destruct Hw as [?|(pc & ? & ? & Hok)]; [by left|right; exists pc;
        split_and!; [done..|by eapply worker_ok_mono; [| |exact Hok]]]).
  - (* the converter has exited *)
    simpl. unfold transcribe_converted.
    destruct (requests s !! rid) as [[tid source lang prm| |]|]; [|by split..].
    destruct (convert_audio_to_whisper_format source run (fs s)) as [disk [normalized|e]].
    + split; simpl; [by rewrite Hq, app_assoc|].
      destruct Hw as [?|(pc & ? & ? & Hok)]; [by left|right; exists pc].
      split_and!; [done..|by eapply worker_ok_mono; [| |exact Hok]].
    + split; [done|].
      destruct Hw as [?|(pc & ? & ? & Hok)]; [by left|right; exists pc].
      split_and!; [done..|by eapply worker_ok_mono; [| |exact Hok]].
  - (* the future is done and the handler resumes *)
    simpl. unfold transcribe_deliver.
    destruct (requests s !! rid) as [[| tid fut |]|]; [|destruct (done _)|..];
      (split; [done|]);
      (destruct Hw as [?|(pc & ? & ? & Hok)]; [by left|right; exists pc;
        split_and!; [done..|by eapply worker_ok_mono; [| |exact Hok]]]).
  - (* the deadline passes *)
    pose proof (step_done_stable s (EvTimeout rid)) as Hst.
    simpl in *. unfold transcribe_timeout in *.
    destruct (requests s !! rid) as [[| tid fut |]|]; [|destruct (done _)|..];
      (split; [done|]);
      (destruct Hw as [?|(pc & ? & ? & Hok)]; [by left|right; exists pc;
        split_and!; [done..|by eapply worker_ok_mono; [| |exact Hok]]]).
  - (* the worker takes a job *)
    simpl. unfold worker_get.
    destruct Hw as [(Hn & Ht & Hs)|(pc & Hn & Ht & Hok)]; rewrite Ht.
    + rewrite lookup_nil. split; [done|]. by left.
    + destruct w as [|w]; simpl; [|split; [done|right; eauto]].
      destruct pc; try (split; [done|right; eauto]).
      destruct (queue s) as [|task rest] eqn:Hqs; [split; [by rewrite Hqs|right; eauto]|].
      split; simpl; [by rewrite Hq, <- app_assoc|].
      right. exists (Running task). split_and!; [done..|].
      simpl. exists (started s). split; [done|]. exact Hok.
  - (* the engine has exited *)
    pose proof (step_done_stable s (EvWhisperDone w run)) as Hst.
    simpl in *. unfold worker_resume, set_worker, set_futures, set_fs in *.
    destruct Hw as [(Hn & Ht & Hs)|(pc & Hn & Ht & Hok)]; rewrite Ht in *.
    + rewrite lookup_nil. split; [done|]. by left.
    + destruct w as [|w]; simpl in *; [|split; [done|right; eauto]].
      destruct pc as [|task| |]; try (split; [done|right; eauto]).
      destruct (worker_try task run (futures s)) as [futs'|e] eqn:Htry; simpl in *.
      * split; [done|]. right. exists AwaitGet. split_and!; [done..|].
        simpl. destruct Hok as (prev & -> & Hprev).
        apply Forall_app. split.
        -- eapply all_done_mono; [|exact Hprev]. done.
        -- constructor; [|constructor]. eauto using worker_try_done_after.
      * split; [done|]. right. exists (Crashed e). done.
Qed.

Lemma exec_Inv s evs : Inv s → Inv (exec s evs).
Proof.
  unfold exec. revert s. induction evs as [|e evs IH]; intros s HI; simpl; [done|].
  apply IH. by apply step_Inv.
Qed.

(** C8: startup leaves the process as it is when a worker task is
    already recorded, so running it twice gives what running it once
    gives, and no sequence of events ever leaves more than one worker
    coroutine in the event loop. *)
Theorem startup_idempotent :
  (∀ s, is_Some (worker_task s) → step s EvStartup = s)
  ∧ (∀ s s1, startup_event s = Ok s1 → startup_event s1 = Ok s1)
  ∧ (∀ s, step (step s EvStartup) EvStartup = step s EvStartup)
  ∧ (∀ fs0 evs, length (tasks (exec (init fs0) evs)) ≤ 1).
Proof.
  assert (∀ s s1, startup_event s = Ok s1 → startup_event s1 = Ok s1) as Hidem.
  { intros s s1. unfold startup_event.
    destruct (negb (truthy API_TOKEN)); [discriminate|].
    destruct (worker_task s) eqn:Hw; intros [= <-]; simpl; by rewrite ?Hw. }
  split_and!.
  - intros s [w Hw]. simpl. unfold startup_event. rewrite Hw. by destruct (negb _).
  - exact Hidem.
  - intros s. simpl. destruct (startup_event s) as [s1|e] eqn:Hs.
    + by rewrite (Hidem _ _ Hs).
    + by rewrite Hs.
  - intros fs0 evs.
    destruct (exec_Inv (init fs0) evs (init_Inv fs0))
      as (_ & [(_ & -> & _)|(pc & _ & -> & _)]); simpl; lia.
Qed.

(** C2: on every run of the service the jobs taken by the worker are in
    the order they were submitted (the jobs submitted are the jobs
    taken followed by the queue), at most one worker is running a job,
    and when the worker takes a job it takes the oldest one in the
    queue, no job is running, and every job taken before has a future
    that is done. *)
Theorem fifo_one_at_a_time fs0 evs :
  let s := exec (init fs0) evs in
  submitted s = started s ++ queue s
  ∧ length (List.filter is_running (tasks s)) ≤ 1
  ∧ (∀ w task rest,
       tasks s !! w = Some AwaitGet → queue s = task :: rest →
       let s' := step s (EvWorkerGet w) in
       tasks s' !! w = Some (Running task)
       ∧ started s' = started s ++ [task]
       ∧ queue s' = rest
       ∧ List.filter is_running (tasks s) = []
       ∧ all_done (futures s) (started s)).
Proof.
  intros s.
  destruct (exec_Inv (init fs0) evs (init_Inv fs0)) as (Hq & Hw). fold s in Hq, Hw.
  split_and!; [done| |].
  - destruct Hw as [(_ & -> & _)|(pc & _ & -> & _)]; simpl; [lia|].
    destruct (is_running pc); simpl; lia.
  - intros w task rest Hpc Hqs. simpl. unfold worker_get. rewrite Hpc, Hqs. simpl.
    split_and!; [|done..| |].
    + apply list_lookup_insert_eq. by eapply lookup_lt_Some.
    + destruct Hw as [(_ & Ht & _)|(pc & _ & Ht & _)]; rewrite Ht in *; [done|].
      destruct w; simpl in *; [by simplify_eq|done].
    + destruct Hw as [(_ & Ht & _)|(pc & _ & Ht & Hok)]; rewrite Ht in *; [done|].
      destruct w; simpl in *; [by simplify_eq|done].
Qed.

(** ** Jobs and their futures *)

Lemma init_Inv_jobs fs0 : Inv_jobs (init fs0).
Proof. split_and!; [done|intros i t|intros rid tid fut]; simpl; by rewrite lookup_nil. Qed.

Lemma step_Inv_jobs s e : Inv_jobs s → Inv_jobs (step s e).
Proof.
  intros (Hn & Hi & Hr). destruct e.
  - simpl. unfold startup_event. repeat case_match; simplify_eq; by split_and!.
  - simpl. unfold shutdown_event, cancel_worker, set_worker, set_fs.
    repeat case_match; by split_and!.
  - simpl. unfold transcribe_begin.
    destruct (verify_token authorization); (split_and!; [done..|]); simpl;
      intros rid tid fut [Hl|(_ & Hl)]%lookup_app_Some; eauto;
      by destruct (rid - length (requests s)) as [|[|]].
  - simpl. unfold transcribe_converted, set_request, set_fs.
    destruct (requests s !! rid) as [[tid source lang prm| |]|] eqn:Hrid; [|done..].
    destruct (convert_audio_to_whisper_format source run (fs s)) as [disk [normalized|e]].
    + split_and!; simpl.
      * rewrite length_app. simpl. lia.
      * intros i t [Hl|(Hge & Hl)]%lookup_app_Some; [eauto|].
        destruct (i - length (submitted s)) as [|[|]] eqn:Hd; simplify_eq/=. lia.
      * intros rid' tid' fut'. destruct (decide (rid' = rid)) as [->|Hne].
        -- rewrite list_lookup_insert_eq by (by eapply lookup_lt_Some).
           intros [= <- <-]. eexists. split.
           ++ rewrite lookup_app_r by lia.
              replace (next_future s - length (submitted s)) with 0 by lia. done.
           ++ done.
        -- rewrite list_lookup_insert_ne by done. intros Hl.
           destruct (Hr _ _ _ Hl) as (t & Ht & Hid). exists t. split; [|done].
           by apply lookup_app_l_Some.
    + split_and!; simpl; [done..|].
      intros rid' tid' fut'. destruct (decide (rid' = rid)) as [->|Hne].
      * rewrite list_lookup_insert_eq by (by eapply lookup_lt_Some). done.
      * rewrite list_lookup_insert_ne by done. eauto.
  - simpl. unfold transcribe_deliver, set_request.
    destruct (requests s !! rid) as [[| tid fut |]|] eqn:Hrid; [done| |done..].
    destruct (done _); [|done]. split_and!; simpl; [done..|].
    intros rid' tid' fut'. destruct (decide (rid' = rid)) as [->|Hne].
    + rewrite list_lookup_insert_eq by (by eapply lookup_lt_Some). done.
    + rewrite list_lookup_insert_ne by done. eauto.
  - simpl. unfold transcribe_timeout, set_request, set_futures.
    destruct (requests s !! rid) as [[| tid fut |]|] eqn:Hrid; [done| |done..].
    destruct (done _); [done|]. split_and!; simpl; [done..|].
    intros rid' tid' fut'. destruct (decide (rid' = rid)) as [->|Hne].
    + rewrite list_lookup_insert_eq by (by eapply lookup_lt_Some). done.
    + rewrite list_lookup_insert_ne by done. eauto.
  - simpl. unfold worker_get. repeat case_match; by split_and!.
  - simpl. unfold worker_resume, set_worker, set_futures, set_fs.
    repeat case_match; by split_and!.
Qed.

Lemma exec_Inv_jobs s evs : Inv_jobs s → Inv_jobs (exec s evs).
Proof.
  unfold exec. revert s. induction evs as [|e evs IH]; intros s HI; simpl; [done|].
  apply IH. by apply step_Inv_jobs.
Qed.

(** On a run of the service, the job a worker is running is the one
    that was submitted under the number of its future. *)
Lemma running_job_submitted fs0 evs w task :
  let s := exec (init fs0) evs in
  tasks s !! w = Some (Running task) → submitted s !! future task = Some task.
Proof.
  intros s Hw.
  destruct (exec_Inv (init fs0) evs (init_Inv fs0)) as (Hq & Hpc).
  destruct (exec_Inv_jobs (init fs0) evs (init_Inv_jobs fs0)) as (_ & Hi & _).
  fold s in Hq, Hpc, Hi.
  destruct Hpc as [(_ & Ht & _)|(pc & _ & Ht & Hok)]; rewrite Ht in Hw; [done|].
  destruct w; simpl in Hw; [|done]. simplify_eq. destruct Hok as (prev & Hs & _).
  assert (submitted s !! length prev = Some task) as Hl.
  { rewrite Hq, Hs, <- app_assoc. by rewrite lookup_app_r, Nat.sub_diag. }
  by rewrite (Hi _ _ Hl).
Qed.

(** The job being run is the last one taken, and the next one to be
    taken carries the next future. *)
Lemma running_job_last s w task :
  Inv s → Inv_jobs s → tasks s !! w = Some (Running task) →
  tasks s = [Running task] ∧ w = 0
  ∧ S (future task) = length (started s) ∧ future task < next_future s.
Proof.
  intros (Hq & Hpc) (Hn & Hi & _) Hw.
  destruct Hpc as [(_ & Ht & _)|(pc & _ & Ht & Hok)]; rewrite Ht in Hw; [done|].
  destruct w; simpl in Hw; [|done]. simplify_eq. destruct Hok as (prev & Hs & _).
  assert (submitted s !! length prev = Some task) as Hl.
  { rewrite Hq, Hs, <- app_assoc. by rewrite lookup_app_r, Nat.sub_diag. }
  rewrite (Hi _ _ Hl). split_and!; [done..| |].
  - rewrite Hs, length_app. simpl. lia.
  - rewrite Hn. by eapply lookup_lt_Some.
Qed.

Lemma next_job_future s task rest :
  Inv s → Inv_jobs s → queue s = task :: rest → future task = length (started s).
Proof.
  intros (Hq & _) (_ & Hi & _) Hqs. apply Hi.
  rewrite Hq, Hqs. by rewrite lookup_app_r, Nat.sub_diag.
Qed.

Lemma init_Inv_wait fs0 : Inv_wait (init fs0).
Proof.
  split_and!; simpl; [done|intros rid tid fut|intros rid rid' tid tid' fut|done];
    by rewrite lookup_nil.
Qed.

Lemma waiting_after_return (reqs : list RequestPc) rid r rid' tid fut :
  <[rid := Returned r]> reqs !! rid' = Some (Waiting tid fut) →
  rid' ≠ rid ∧ reqs !! rid' = Some (Waiting tid fut).
Proof.
  destruct (decide (rid' = rid)) as [->|Hne].
  - destruct (decide (rid < length reqs)).
    + by rewrite list_lookup_insert_eq.
    + rewrite list_insert_ge by lia. intros Hl%lookup_lt_Some. lia.
  - by rewrite list_lookup_insert_ne.
Qed.

Lemma waiting_after_append (reqs : list RequestPc) pc rid tid fut :
  (∀ tid' fut', pc ≠ Waiting tid' fut') →
  (reqs ++ [pc]) !! rid = Some (Waiting tid fut) → reqs !! rid = Some (Waiting tid fut).
Proof.
  intros Hpc [Hl|(_ & Hl)]%lookup_app_Some; [done|].
  destruct (rid - length reqs) as [|[|]]; simplify_eq/=. by destruct (Hpc tid fut).
Qed.

Lemma step_Inv_wait s e : Inv s → Inv_jobs s → Inv_wait s → Inv_wait (step s e).
Proof.
  intros HI HJ (Hfresh & Hwait & Huniq & Hval). destruct e.
  - (* startup *)
    simpl. unfold startup_event. destruct (negb (truthy API_TOKEN)); [by split_and!|].
    destruct (worker_task s); [by split_and!|].
    split_and!; simpl; [done..|]. intros i Hv. destruct (Hval i Hv) as [Hlt Hrun].
    split; [done|]. intros w t [Hl|(_ & Hl)]%lookup_app_Some; [eauto|].
    by destruct (w - length (tasks s)) as [|[|]].
  - (* shutdown *)
    simpl. unfold shutdown_event, cancel_worker, set_worker, set_fs.
    destruct (worker_task s) as [w0|]; [|by split_and!].
    destruct (tasks s !! w0) as [[| task | |]|] eqn:Hw0; try by split_and!.
    + split_and!; simpl; [done..|]. intros i Hv. destruct (Hval i Hv) as [Hlt Hrun].
      split; [done|]. intros w t. destruct (decide (w = w0)) as [->|Hne].
      * rewrite list_lookup_insert_eq by (by eapply lookup_lt_Some). done.
      * rewrite list_lookup_insert_ne by done. eauto.
    + split_and!; simpl; [done..|]. intros i Hv. destruct (Hval i Hv) as [Hlt Hrun].
      split; [done|]. intros w t. destruct (decide (w = w0)) as [->|Hne].
      * rewrite list_lookup_insert_eq by (by eapply lookup_lt_Some). done.
      * rewrite list_lookup_insert_ne by done. eauto.
  - (* a request arrives *)
    simpl. unfold transcribe_begin.
    destruct (verify_token authorization); (split_and!; simpl; [done| | |done]).
    + intros rid tid fut Hl%waiting_after_append; eauto.
    + intros rid rid' tid tid' fut Hl%waiting_after_append Hl'%waiting_after_append; eauto.
    + intros rid tid fut Hl%waiting_after_append; eauto.
    + intros rid rid' tid tid' fut Hl%waiting_after_append Hl'%waiting_after_append; eauto.
  - (* the converter has exited *)
    simpl. unfold transcribe_converted, set_request, set_fs.
    destruct (requests s !! rid) as [[tid0 source lang prm| |]|] eqn:Hrid;
      [|by split_and!..].
    assert (rid < length (requests s)) as Hlt by (by eapply lookup_lt_Some).
    destruct (convert_audio_to_whisper_format source run (fs s)) as [disk [normalized|e]].
    + split_and!; simpl.
      * intros i Hi. apply Hfresh. lia.
      * intros rid' tid fut. destruct (decide (rid' = rid)) as [->|Hne].
        -- rewrite list_lookup_insert_eq by done. intros [= <- <-].
           split; [lia|]. by rewrite Hfresh.
        -- rewrite list_lookup_insert_ne by done. intros Hl.
           destruct (Hwait _ _ _ Hl). split; [lia|done].
      * intros rid1 rid2 tid1 tid2 fut.
        destruct (decide (rid1 = rid)) as [->|Hne1];
          destruct (decide (rid2 = rid)) as [->|Hne2]; [done| | |].
        -- rewrite list_lookup_insert_eq, list_lookup_insert_ne by done.
           intros [= <- <-] Hl. destruct (Hwait _ _ _ Hl). lia.
        -- rewrite list_lookup_insert_eq, list_lookup_insert_ne by done.
           intros Hl [= <- <-]. destruct (Hwait _ _ _ Hl). lia.
        -- rewrite !list_lookup_insert_ne by done. eauto.
      * done.
    + split_and!; simpl; [done| | |done].
      * intros rid' tid fut [_ Hl]%waiting_after_return. eauto.
      * intros rid1 rid2 tid1 tid2 fut [_ Hl1]%waiting_after_return
          [_ Hl2]%waiting_after_return. eauto.
  - (* the future is done and the handler resumes *)
    simpl. unfold transcribe_deliver, set_request.
    destruct (requests s !! rid) as [[| tid0 fut0 |]|]; try by split_and!.
    destruct (done _); [|by split_and!].
    split_and!; simpl; [done| | |done].
    + intros rid' tid fut [_ Hl]%waiting_after_return. eauto.
    + intros rid1 rid2 tid1 tid2 fut [_ Hl1]%waiting_after_return
        [_ Hl2]%waiting_after_return. eauto.
  - (* the deadline passes *)
    simpl. unfold transcribe_timeout, set_request, set_futures.
    destruct (requests s !! rid) as [[| tid0 fut0 |]|] eqn:Hrid; try by split_and!.
    destruct (done (futures s fut0)) eqn:Hd; [by split_and!|].
    destruct (Hwait _ _ _ Hrid) as [Hlt0 _].
    unfold cancel. rewrite Hd. split_and!; simpl.
    + intros i Hi. unfold fut_update. rewrite bool_decide_eq_false_2 by lia. eauto.
    + intros rid' tid fut [Hne Hl]%waiting_after_return.
      destruct (Hwait _ _ _ Hl). split; [done|].
      unfold fut_update. case_bool_decide; [|done]. subst fut.
      destruct Hne. eauto.
    + intros rid1 rid2 tid1 tid2 fut [_ Hl1]%waiting_after_return
        [_ Hl2]%waiting_after_return. eauto.
    + intros i. unfold fut_update. case_bool_decide; [done|]. eauto.
  - (* the worker takes a job *)
    simpl. unfold worker_get.
    destruct (tasks s !! w) as [[| | |]|] eqn:Hw; try by split_and!.
    destruct (queue s) as [|task rest] eqn:Hq; [by split_and!|].
    pose proof (next_job_future s task rest HI HJ Hq) as Hnext.
    split_and!; simpl; [done..|]. intros i Hv. destruct (Hval i Hv) as [Hlt Hrun].
    split; [rewrite length_app; simpl; lia|].
    intros w' t. destruct (decide (w' = w)) as [->|Hne].
    + rewrite list_lookup_insert_eq by (by eapply lookup_lt_Some).
      intros [= <-]. lia.
    + rewrite list_lookup_insert_ne by done. eauto.
  - (* the engine has exited *)
    simpl. unfold worker_resume, set_worker, set_futures, set_fs.
    destruct (tasks s !! w) as [[| task | |]|] eqn:Hw; try by split_and!.
    destruct (running_job_last s w task HI HJ Hw) as (Ht & -> & Hlast & Hlt).
    destruct (worker_try_total task run (futures s)) as [futs' Htry]. rewrite Htry.
    assert (∀ i, i ≠ future task → futs' i = futures s i) as Hother.
    { intros i Hne. destruct (done (futures s (future task))) eqn:Hd.
      - rewrite worker_try_done in Htry by done. congruence.
      - assert (futures s (future task) = Pending) as Hp
          by (by destruct (futures s (future task))).
        rewrite worker_try_pending in Htry by done. injection Htry as <-.
        unfold fut_update. by rewrite bool_decide_eq_false_2. }
    assert (futures s (future task) ≠ Cancelled → futs' (future task) ≠ Cancelled) as Hsame.
    { intros Hnc. destruct (done (futures s (future task))) eqn:Hd.
      - rewrite worker_try_done in Htry by done. congruence.
      - assert (futures s (future task) = Pending) as Hp
          by (by destruct (futures s (future task))).
        rewrite worker_try_pending in Htry by done. injection Htry as <-.
        unfold fut_update. rewrite bool_decide_eq_true_2 by done.
        by destruct (run_whisper task run). }
    rewrite Ht. split_and!; simpl.
    + intros i Hi. rewrite Hother by lia. eauto.
    + intros rid tid fut Hl. destruct (Hwait _ _ _ Hl) as [? Hnc]. split; [done|].
      destruct (decide (fut = future task)) as [->|Hne]; [eauto|].
      by rewrite Hother.
    + done.
    + intros i Hv. split; [|by intros [|?] t].
      destruct (decide (i = future task)) as [->|Hne]; [lia|].
      rewrite Hother in Hv by done. by destruct (Hval i Hv).
Qed.

Lemma exec_Inv_wait s evs : Inv s → Inv_jobs s → Inv_wait s → Inv_wait (exec s evs).
Proof.
  unfold exec. revert s. induction evs as [|e evs IH]; intros s HI HJ HW; simpl; [done|].
  apply IH; [by apply step_Inv|by apply step_Inv_jobs|by apply step_Inv_wait].
Qed.

(** On a run of the service, a handler that is still waiting on the
    future of the job being run waits on a pending future. *)
Lemma waiting_on_running_pending fs0 evs w task rid tid :
  let s := exec (init fs0) evs in
  tasks s !! w = Some (Running task) →
  requests s !! rid = Some (Waiting tid (future task)) →
  futures s (future task) = Pending.
Proof.
  intros s Hw Hr.
  destruct (exec_Inv_wait (init fs0) evs (init_Inv fs0) (init_Inv_jobs fs0)
              (init_Inv_wait fs0)) as (_ & Hwait & _ & Hval).
  fold s in Hwait, Hval.
  destruct (Hwait _ _ _ Hr) as [_ Hnc].
  destruct (futures s (future task)) eqn:Hf; [done| | |done].
  - destruct (Hval (future task)) as [_ Hrun]; [by rewrite Hf|]. by destruct (Hrun w task).
  - destruct (Hval (future task)) as [_ Hrun]; [by rewrite Hf|]. by destruct (Hrun w task).
Qed.

(** ** Outcomes of a run *)

Lemma run_whisper_ok_iff task run text :
  run_whisper task run = Ok text
  ↔ wh_returncode run = 0%Z
    ∧ ∃ s, artifact_text (wh_artifact run) = Some s ∧ text = strip s.
Proof.
  destruct (Z.eq_dec (wh_returncode run) 0%Z) as [Hrc|Hrc].
  - pose proof (run_whisper_zero task run Hrc) as Hz. unfold artifact_text.
    destruct (wh_artifact run) as [| | |[]];
      try (destruct Hz as [e ->]; split; [discriminate|by intros (_ & ? & ? & _)]).
    destruct (dict_get _ _) as [[]|];
      try (destruct Hz as [e ->]; split; [discriminate|by intros (_ & ? & ? & _)]).
    rewrite Hz. split.
    + intros [= <-]. eauto.
    + by intros (_ & s' & [= <-] & ->).
  - destruct (run_whisper_nonzero task run Hrc) as [e ->].
    split; [discriminate|by intros [? _]].
Qed.

Lemma run_whisper_raises_iff task run :
  (∃ e, run_whisper task run = Raise e)
  ↔ wh_returncode run ≠ 0%Z ∨ artifact_text (wh_artifact run) = None.
Proof.
  destruct (run_whisper task run) as [text|e] eqn:Hrun.
  - apply run_whisper_ok_iff in Hrun as (Hrc & s & Hs & _).
    split; [by intros [? ?]|]. intros [?|?]; congruence.
  - split; [intros _|by eauto].
    destruct (Z.eq_dec (wh_returncode run) 0%Z) as [Hrc|Hrc]; [|by left]. right.
    destruct (artifact_text (wh_artifact run)) as [s|] eqn:Hs; [|done].
    assert (run_whisper task run = Ok (strip s)) as Hok
      by (apply run_whisper_ok_iff; eauto).
    congruence.
Qed.

(** One full turn of the worker on the oldest job of the queue. *)
Lemma worker_turn s w run task rest :
  tasks s !! w = Some AwaitGet → queue s = task :: rest →
  let s' := step (step s (EvWorkerGet w)) (EvWhisperDone w run) in
  tasks s' !! w = Some AwaitGet
  ∧ queue s' = rest
  ∧ fs s' = fs s ∖ {[ audio_path task ]}
  ∧ started s' = started s ++ [task].
Proof.
  intros Hw Hq. simpl. unfold worker_get. rewrite Hw, Hq.
  unfold worker_resume. simpl.
  rewrite list_lookup_insert_eq by (by eapply lookup_lt_Some).
  destruct (worker_try_total task run (futures s)) as [futs' ->]. simpl.
  split_and!; [|done..].
  rewrite list_lookup_insert_eq; [done|].
  rewrite length_insert. by eapply lookup_lt_Some.
Qed.

(** Left to itself, the worker reaches any job of the queue and removes
    its input. *)
Lemma worker_turns_reach w before : ∀ runs s task after,
  tasks s !! w = Some AwaitGet →
  queue s = before ++ task :: after →
  length runs = S (length before) →
  let s' := exec s (worker_turns w runs) in
  (audio_path task ∉ fs s')
  ∧ queue s' = after
  ∧ tasks s' !! w = Some AwaitGet
  ∧ started s' = started s ++ before ++ [task].
Proof.
  induction before as [|b before IH]; intros runs s task after Hw Hq Hlen.
  - destruct runs as [|run [|]]; simpl in Hlen; try lia. simpl in Hq.
    destruct (worker_turn s w run task after Hw Hq) as (Hw' & Hq' & Hfs' & Hst').
    cbn [worker_turns flat_map app exec fold_left].
    rewrite Hfs'. split_and!; [set_solver|done..].
  - destruct runs as [|run runs]; simpl in Hlen; [lia|]. simpl in Hq.
    destruct (worker_turn s w run b _ Hw Hq) as (Hw' & Hq' & Hfs' & Hst').
    specialize (IH runs _ task after Hw' Hq' ltac:(lia)).
    change (exec s (worker_turns w (run :: runs)))
      with (exec (step (step s (EvWorkerGet w)) (EvWhisperDone w run))
                 (worker_turns w runs)).
    destruct IH as (? & ? & ? & Hst''). split_and!; [done..|].
    rewrite Hst'', Hst'. by rewrite <- !app_assoc.
Qed.

(** C4, as the code has it: whatever [run_whisper] raises on a job (a
    non-zero exit, or an exit of zero with no artifact or one that does
    not give a string under ["text"]) stays inside the worker: the
    worker goes back to the queue and takes the next job; the exception
    is stored in the job's future when that future is still pending,
    and no future changes when it is already done (cancelled by the
    handler at the deadline). *)
Theorem failure_stays_in_worker s w run task :
  tasks s !! w = Some (Running task) →
  wh_returncode run ≠ 0%Z ∨ artifact_text (wh_artifact run) = None →
  let s' := step s (EvWhisperDone w run) in
  ∃ e, run_whisper task run = Raise e
    ∧ tasks s' !! w = Some AwaitGet
    ∧ (futures s (future task) = Pending → futures s' (future task) = Failed e)
    ∧ (done (futures s (future task)) = true → futures s' = futures s)
    ∧ (∀ next rest, queue s' = next :: rest →
         tasks (step s' (EvWorkerGet w)) !! w = Some (Running next)).
Proof.
  intros Hw Hfail. apply run_whisper_raises_iff with (task := task) in Hfail as [e He].
  exists e. split; [done|].
  assert (tasks (step s (EvWhisperDone w run)) !! w = Some AwaitGet) as Hback
    by (by destruct (worker_unlinks_input s w run task Hw) as (_ & _ & ?)).
  split_and!; [done| | |].
  - intros Hp. simpl. unfold worker_resume. rewrite Hw.
    rewrite worker_try_pending, He by done. simpl.
    unfold fut_update. by rewrite bool_decide_eq_true_2.
  - intros Hd. simpl. unfold worker_resume. rewrite Hw.
    by rewrite worker_try_done.
  - set (s' := step s (EvWhisperDone w run)) in *. intros next rest Hq.
    change (step s' (EvWorkerGet w)) with (worker_get w s').
    unfold worker_get. rewrite Hback, Hq.
    simpl. apply list_lookup_insert_eq. by eapply lookup_lt_Some.
Qed.

(** C5, as the code has it: on a run of the service, when the engine
    exits with zero and its artifact has a string under ["text"] while
    the handler of the job is still waiting (the deadline has not
    passed), the handler returns that text stripped together with the
    job's [task_id], and the job's input file is gone. *)
Theorem success_reaches_caller fs0 evs w run task rid tid text :
  let s := exec (init fs0) evs in
  tasks s !! w = Some (Running task) →
  requests s !! rid = Some (Waiting tid (future task)) →
  wh_returncode run = 0%Z →
  artifact_text (wh_artifact run) = Some text →
  let s' := step (step s (EvWhisperDone w run)) (EvDeliver rid) in
  requests s' !! rid = Some (Returned (Ok (mkResponse (task_id task) (strip text))))
  ∧ tid = task_id task
  ∧ audio_path task ∉ fs s'.
Proof.
  intros s Hw Hr Hrc Hart.
  pose proof (waiting_on_running_pending fs0 evs w task rid tid Hw Hr) as Hp.
  cbv zeta in Hp. fold s in Hp.
  assert (run_whisper task run = Ok (strip text)) as Hrun
    by (apply run_whisper_ok_iff; eauto).
  assert (tid = task_id task) as ->.
  { pose proof (running_job_submitted fs0 evs w task Hw) as Hsub.
    destruct (exec_Inv_jobs (init fs0) evs (init_Inv_jobs fs0)) as (_ & _ & Hwait).
    cbv zeta in Hsub.
    destruct (Hwait _ _ _ Hr) as (t & Ht & <-).
    rewrite Hsub in Ht. by injection Ht as <-. }
  simpl. unfold worker_resume. rewrite Hw.
  rewrite worker_try_pending, Hrun by done. simpl.
  unfold transcribe_deliver. simpl. rewrite Hr.
  unfold fut_update. rewrite bool_decide_eq_true_2 by done. simpl.
  split_and!; [|done|unfold worker_finally; set_solver].
  apply list_lookup_insert_eq. by eapply lookup_lt_Some.
Qed.

(** ** The deadline *)

(** C6: when the deadline passes while the future is pending, the
    handler raises the 504, which no exception of a run is turned into
    (those become a 500); the queue, the worker and the files are as
    they were, so the job is neither removed nor stopped: a worker
    that is running it finishes the run and removes its input, and a
    worker left to take the queue in order reaches it and removes its
    input. *)
Theorem timeout_abandons_only_the_wait s rid tid fut :
  requests s !! rid = Some (Waiting tid fut) →
  futures s fut = Pending →
  let s' := step s (EvTimeout rid) in
  let gateway_timeout := Exn (HTTPException 504) (lit "Transcription timed out") in
  requests s' !! rid = Some (Returned (Raise gateway_timeout))
  ∧ (∀ task run e, run_whisper task run = Raise e →
       transcribe_reply tid (Raise e) = Raise (Exn (HTTPException 500) (exn_msg e))
       ∧ transcribe_reply tid (Raise e) ≠ Raise gateway_timeout)
  ∧ queue s' = queue s ∧ tasks s' = tasks s ∧ fs s' = fs s
  ∧ futures s' fut = Cancelled
  ∧ (∀ w task run, tasks s' !! w = Some (Running task) → future task = fut →
       let s'' := step s' (EvWhisperDone w run) in
       (audio_path task ∉ fs s'') ∧ tasks s'' !! w = Some AwaitGet
       ∧ futures s'' fut = Cancelled)
  ∧ (∀ w before task after runs,
       tasks s' !! w = Some AwaitGet → queue s' = before ++ task :: after →
       future task = fut → length runs = S (length before) →
       let s'' := exec s' (worker_turns w runs) in
       (audio_path task ∉ fs s'') ∧ queue s'' = after
       ∧ started s'' = started s ++ before ++ [task]).
Proof.
  intros Hr Hp s' gateway_timeout.
  assert (s' = set_request rid (Returned (Raise gateway_timeout))
                 (set_futures (cancel fut (futures s)) s)) as Hs'.
  { unfold s'. simpl. unfold transcribe_timeout. by rewrite Hr, Hp. }
  assert (futures s' fut = Cancelled) as Hc.
  { rewrite Hs'. simpl. unfold cancel. rewrite Hp. simpl.
    unfold fut_update. by rewrite bool_decide_eq_true_2. }
  split_and!.
  - rewrite Hs'. simpl. apply list_lookup_insert_eq. by eapply lookup_lt_Some.
  - intros task run e He.
    destruct (run_whisper_raises_Exception _ _ _ He) as (_ & Ht & Hcn).
    unfold transcribe_reply. destruct e as [[] msg]; simpl in *; done.
  - by rewrite Hs'.
  - by rewrite Hs'.
  - by rewrite Hs'.
  - done.
  - intros w task run Hw Hf s''.
    destruct (worker_unlinks_input s' w run task Hw) as (Hgone & _ & Hback).
    split_and!; [done..|].
    unfold s''. rewrite step_done_stable; [done|]. by rewrite Hc.
  - intros w before task after runs Hw Hq Hf Hlen s''.
    destruct (worker_turns_reach w before runs s' task after Hw Hq Hlen)
      as (Hgone & Hq' & _ & Hst).
    split_and!; [done..|]. unfold s''. rewrite Hst. by rewrite Hs'.
Qed.

(** ** Normalisation *)

Lemma convert_spec source run disk normalized :
  with_suffix source (lit ".normalized.wav") = Ok normalized →
  let disk' := if ff_wrote_output run then {[ normalized ]} ∪ disk else disk in
  let out := convert_audio_to_whisper_format source run disk in
  out.1 = disk'
  ∧ (raises out.2 = true ↔ ff_returncode run ≠ 0%Z ∨ normalized ∉ disk')
  ∧ (raises out.2 = false → out.2 = Ok normalized).
Proof.
  intros Hws disk'. unfold convert_audio_to_whisper_format. rewrite Hws. fold disk'.
  destruct (Z.eqb_spec (ff_returncode run) 0) as [Hrc|Hrc]; simpl.
  - case_bool_decide as Hin; simpl; [naive_solver|].
    split_and!; [done| |].
    + split; [by right|intros _].
      destruct (ff_stderr run) as [err|]; simpl; [|done].
      destruct (truthy (strip err)); simpl; [done|].
      by destruct (ff_stdout run).
    + destruct (ff_stderr run) as [err|]; simpl; [|done].
      destruct (truthy (strip err)); simpl; [done|].
      by destruct (ff_stdout run).
  - split_and!; [done| |].
    + split; [by left|intros _].
      destruct (ff_stderr run) as [err|]; simpl; [|done].
      destruct (truthy (strip err)); simpl; [done|].
      by destruct (ff_stdout run).
    + destruct (ff_stderr run) as [err|]; simpl; [|done].
      destruct (truthy (strip err)); simpl; [done|].
      by destruct (ff_stdout run).
Qed.

Lemma staged_path_normalized rnd sfx :
  ∃ normalized, with_suffix (staged_path rnd sfx) (lit ".normalized.wav") = Ok normalized.
Proof. by apply with_suffix_normalized_ok. Qed.

(** C7: for an upload staged by the handler, the normalisation raises
    exactly when the converter's exit status is not zero or no file is
    at the derived path, and otherwise returns that path; when it
    raises, the handler ends with that exception at once and the queue,
    the futures and the record of submitted jobs are as before; and
    staging the upload puts nothing on the queue either. *)
Theorem normalization_failure rnd filename run :
  let source := staged_path rnd (source_suffix filename) in
  ∃ normalized,
    with_suffix source (lit ".normalized.wav") = Ok normalized
    ∧ (∀ disk,
         let disk' := if ff_wrote_output run then {[ normalized ]} ∪ disk else disk in
         let r := (convert_audio_to_whisper_format source run disk).2 in
         (raises r = true ↔ ff_returncode run ≠ 0%Z ∨ normalized ∉ disk')
         ∧ (raises r = false → r = Ok normalized))
    ∧ (∀ s rid tid lang prm e,
         requests s !! rid = Some (Converting tid source lang prm) →
         (convert_audio_to_whisper_format source run (fs s)).2 = Raise e →
         let s' := step s (EvConverted rid run) in
         requests s' !! rid = Some (Returned (Raise e))
         ∧ queue s' = queue s ∧ submitted s' = submitted s
         ∧ futures s' = futures s ∧ next_future s' = next_future s)
    ∧ (∀ s authorization lang prm uuid,
         let s1 := step s (EvRequest authorization filename lang prm uuid rnd) in
         queue s1 = queue s ∧ submitted s1 = submitted s).
Proof.
  intros source.
  destruct (staged_path_normalized rnd (source_suffix filename)) as [normalized Hws].
  exists normalized. split_and!; [done| | |].
  - intros disk disk' r.
    by destruct (convert_spec source run disk normalized Hws) as (_ & ? & ?).
  - intros s rid tid lang prm e Hr He. simpl. unfold transcribe_converted. rewrite Hr.
    destruct (convert_audio_to_whisper_format source run (fs s)) as [disk r].
    simpl in He. subst r. simpl. split_and!; [|done..].
    apply list_lookup_insert_eq. by eapply lookup_lt_Some.
  - intros s authorization lang prm uuid. simpl. unfold transcribe_begin.
    by destruct (verify_token authorization).
Qed.

(** C9: an upload that passes the token check is staged in a temp file
    and its handler waits for the converter; when the converter has
    exited, the staged file is gone whether the normalisation returned
    or raised, the only file that can be new on disk is the normalised
    artifact, and when the normalisation returned that artifact is on
    disk and the handler goes on to wait for the job. *)
Theorem staged_upload_removed s rid tid source lang prm run :
  requests s !! rid = Some (Converting tid source lang prm) →
  let s' := step s (EvConverted rid run) in
  let r := (convert_audio_to_whisper_format source run (fs s)).2 in
  (source ∉ fs s')
  ∧ (∀ p, p ∈ fs s' → p ∈ fs s ∨ with_suffix source (lit ".normalized.wav") = Ok p)
  ∧ (∀ normalized, r = Ok normalized →
       normalized ∈ fs s'
       ∧ requests s' !! rid = Some (Waiting tid (next_future s)))
  ∧ (∀ e, r = Raise e → requests s' !! rid = Some (Returned (Raise e)))
  ∧ (∀ authorization filename uuid rnd s0,
       verify_token authorization = Ok () →
       let s1 := step s0 (EvRequest authorization filename lang prm uuid rnd) in
       let staged := staged_path rnd (source_suffix filename) in
       requests s1 !! length (requests s0) = Some (Converting uuid staged lang prm)
       ∧ fs s1 = {[ staged ]} ∪ fs s0).
Proof.
  intros Hr s' r.
  assert (rid < length (requests s)) as Hlt by (by eapply lookup_lt_Some).
  assert (∃ disk,
            convert_audio_to_whisper_format source run (fs s) = (disk, r)
            ∧ (∀ p, p ∈ disk →
                 p ∈ fs s ∨ with_suffix source (lit ".normalized.wav") = Ok p)
            ∧ (∀ normalized, r = Ok normalized →
                 normalized ∈ disk ∧ normalized ≠ source))
    as (disk & Hconv & Hnew & Hok).
  { exists (convert_audio_to_whisper_format source run (fs s)).1.
    split; [by destruct (convert_audio_to_whisper_format source run (fs s))|].
    destruct (with_suffix source (lit ".normalized.wav")) as [normalized|e] eqn:Hws.
    - destruct (convert_spec source run (fs s) normalized Hws) as (-> & Hiff & Hret).
      split.
      + intros p. destruct (ff_wrote_output run); [|by left].
        intros [->%elem_of_singleton|?]%elem_of_union; [by right|by left].
      + intros n Hn. fold r in Hiff, Hret. rewrite Hn in Hiff, Hret.
        specialize (Hret eq_refl). injection Hret as ->.
        split; [|by eapply with_suffix_normalized_ne].
        destruct (decide (normalized ∈
          (if ff_wrote_output run then {[normalized]} ∪ fs s else fs s))) as [|Hni]; [done|].
        assert (raises (Ok normalized : result Path) = true) by (apply Hiff; by right).
        done.
    - unfold r, convert_audio_to_whisper_format. rewrite Hws. simpl.
      split; [by left|done]. }
  assert (s' = match r with
               | Raise e =>
                   set_request rid (Returned (Raise e)) (set_fs (disk ∖ {[source]}) s)
               | Ok normalized =>
                   mkState (queue s ++ [mkTask tid normalized lang prm (next_future s)])
                     (worker_task s) (tasks s) (futures s) (S (next_future s))
                     (disk ∖ {[source]})
                     (<[rid := Waiting tid (next_future s)]> (requests s))
                     (submitted s ++ [mkTask tid normalized lang prm (next_future s)])
                     (started s)
               end) as Hs'.
  { unfold s'. simpl. unfold transcribe_converted. by rewrite Hr, Hconv. }
  split_and!.
  - rewrite Hs'. destruct r; simpl; set_solver.
  - intros p. rewrite Hs'. destruct r; simpl; intros [? _]%elem_of_difference; eauto.
  - intros normalized ->. destruct (Hok _ eq_refl) as [Hin Hne].
    rewrite Hs'. simpl. split; [set_solver|]. by apply list_lookup_insert_eq.
  - intros e ->. rewrite Hs'. simpl. by apply list_lookup_insert_eq.
  - intros authorization filename uuid rnd s0 Hauth. simpl. unfold transcribe_begin.
    rewrite Hauth. simpl. split; [|done].
    by rewrite lookup_app_r, Nat.sub_diag.
Qed.

(** ** Responses, once given *)

Lemma step_returned_final s e rid r :
  requests s !! rid = Some (Returned r) →
  requests (step s e) !! rid = Some (Returned r).
Proof.
  intros Hr. destruct e; simpl.
  - unfold startup_event. by repeat case_match; simplify_eq.
  - unfold shutdown_event, cancel_worker, set_worker, set_fs. by repeat case_match.
  - unfold transcribe_begin. destruct (verify_token authorization); simpl;
      by apply lookup_app_l_Some.
  - unfold transcribe_converted, set_request, set_fs.
    destruct (requests s !! rid0) as [[tid source lang prm| |]|] eqn:Hr0; [|done..].
    assert (rid ≠ rid0) by congruence.
    destruct (convert_audio_to_whisper_format source run (fs s)) as [disk [normalized|e]];
      simpl; by rewrite list_lookup_insert_ne.
  - unfold transcribe_deliver, set_request.
    destruct (requests s !! rid0) as [[| tid fut |]|] eqn:Hr0; [done| |done..].
    assert (rid ≠ rid0) by congruence.
    destruct (done _); simpl; [|done]. by rewrite list_lookup_insert_ne.
  - unfold transcribe_timeout, set_request, set_futures.
    destruct (requests s !! rid0) as [[| tid fut |]|] eqn:Hr0; [done| |done..].
    assert (rid ≠ rid0) by congruence.
    destruct (done _); simpl; [done|]. by rewrite list_lookup_insert_ne.
  - unfold worker_get. by repeat case_match.
  - unfold worker_resume, set_worker, set_futures, set_fs. by repeat case_match.
Qed.

(** ** The worker's turn *)

Lemma step_no_crash s e :
  (∀ w x, tasks s !! w ≠ Some (Crashed x)) →
  ∀ w x, tasks (step s e) !! w ≠ Some (Crashed x).
Proof.
  intros Hno w x. destruct e; simpl; try apply Hno.
  - unfold startup_event. destruct (negb _); [apply Hno|].
    destruct (worker_task s); [apply Hno|]. simpl.
    intros [Hl|(_ & Hl)]%lookup_app_Some; [by eapply Hno|].
    by destruct (w - length (tasks s)) as [|[|]].
  - unfold shutdown_event, cancel_worker, set_worker, set_fs.
    destruct (worker_task s) as [w0|]; [|apply Hno].
    destruct (tasks s !! w0) as [[| | |]|]; try apply Hno; simpl;
      (intros [(_ & ? & _)|(_ & Hl)]%list_lookup_insert_Some; [done|by eapply Hno]).
  - unfold transcribe_begin. destruct (verify_token authorization); apply Hno.
  - unfold transcribe_converted, set_request, set_fs.
    repeat case_match; simpl; apply Hno.
  - unfold transcribe_deliver, set_request. repeat case_match; simpl; apply Hno.
  - unfold transcribe_timeout, set_request, set_futures.
    repeat case_match; simpl; apply Hno.
  - unfold worker_get. destruct (tasks s !! w0) as [[| | |]|]; try apply Hno.
    destruct (queue s); [apply Hno|]. simpl.
    intros [(_ & ? & _)|(_ & Hl)]%list_lookup_insert_Some; [done|by eapply Hno].
  - unfold worker_resume, set_worker, set_futures, set_fs.
    destruct (tasks s !! w0) as [[| task | |]|]; try apply Hno.
    destruct (worker_try_total task run (futures s)) as [futs' ->]. simpl.
    intros [(_ & ? & _)|(_ & Hl)]%list_lookup_insert_Some; [done|by eapply Hno].
Qed.

Lemma exec_no_crash fs0 evs w x : tasks (exec (init fs0) evs) !! w ≠ Some (Crashed x).
Proof.
  revert w x. induction evs as [|e evs IH] using rev_ind.
  - intros w x. simpl. by rewrite lookup_nil.
  - rewrite exec_snoc. by apply step_no_crash.
Qed.

(** X2: the [try] and [except Exception] blocks of one turn of the
    worker's loop, entered when the engine has exited, let no exception
    out.  Whatever the engine's exit and whatever the state of the
    job's future, every exception of [run_whisper] is caught, and
    [set_result] and [set_exception] are only called on a future that
    is not done, so that neither raises [InvalidStateError].  After the
    blocks the job's future is done; no other future and no future that
    was done already has changed.  (The [unlink] of the [finally] block
    is not part of the statement.) *)
Theorem worker_try_lets_nothing_out task run futs :
  ∃ futs', worker_try task run futs = Ok futs'
    ∧ done (futs' (future task)) = true
    ∧ (∀ i, i ≠ future task ∨ done (futs i) = true → futs' i = futs i).
Proof.
  destruct (worker_try_total task run futs) as [futs' Htry].
  exists futs'. split_and!; [done|by eapply worker_try_done_after|].
  intros i [Hne|Hd]; [|by eapply worker_try_stable].
  destruct (done (futs (future task))) eqn:Hdt.
  - rewrite worker_try_done in Htry by done. congruence.
  - assert (futs (future task) = Pending) as Hp by (by destruct (futs (future task))).
    rewrite worker_try_pending in Htry by done. injection Htry as <-.
    unfold fut_update. by rewrite bool_decide_eq_false_2.
Qed.

(** ** Shutdown *)

Lemma step_halted s e :
  halted s →
  halted (step s e)
  ∧ tasks (step s e) = tasks s
  ∧ started (step s e) = started s
  ∧ (∃ new, queue (step s e) = queue s ++ new)
  ∧ (∀ i, futures (step s e) i = futures s i
          ∨ (futures s i = Pending ∧ futures (step s e) i = Cancelled)).
Proof.
  intros [[w0 Hw0] Hall].
  assert (∀ w, tasks s !! w = Some Stopped ∨ tasks s !! w = None) as Hpc.
  { intros w. destruct (tasks s !! w) as [pc|] eqn:Hl; [left|by right].
    by rewrite (proj1 (Forall_lookup _ _) Hall _ _ Hl). }
  assert (halted s) as Hh by (split; [by exists w0|done]).
  assert (∃ new, queue s = queue s ++ new) as Hq0 by (exists []; by rewrite app_nil_r).
  destruct e; simpl.
  - unfold startup_event. rewrite Hw0. destruct (negb _); split_and!; eauto.
  - unfold shutdown_event, cancel_worker. rewrite Hw0.
    destruct (Hpc w0) as [-> | ->]; split_and!; eauto.
  - unfold transcribe_begin. destruct (verify_token authorization); split_and!; eauto.
  - unfold transcribe_converted, set_request, set_fs.
    destruct (requests s !! rid) as [[tid source lang prm| |]|]; [|split_and!; by eauto..].
    destruct (convert_audio_to_whisper_format source run (fs s)) as [disk [normalized|e]];
      split_and!; simpl; eauto.
  - unfold transcribe_deliver, set_request. repeat case_match; split_and!; eauto.
  - unfold transcribe_timeout, set_request, set_futures.
    destruct (requests s !! rid) as [[| tid fut |]|]; [split_and!; by eauto| |split_and!; by eauto..].
    destruct (done (futures s fut)) eqn:Hd; [split_and!; by eauto|].
    split_and!; simpl; eauto.
    intros i. unfold cancel, fut_update. rewrite Hd.
    case_bool_decide; [subst; right|by left].
    split; [|done]. by destruct (futures s fut).
  - unfold worker_get. destruct (Hpc w) as [-> | ->]; split_and!; eauto.
  - unfold worker_resume. destruct (Hpc w) as [-> | ->]; split_and!; eauto.
Qed.

Lemma exec_halted s evs :
  halted s →
  tasks (exec s evs) = tasks s
  ∧ started (exec s evs) = started s
  ∧ (∃ new, queue (exec s evs) = queue s ++ new)
  ∧ (∀ i, futures (exec s evs) i = futures s i
          ∨ (futures s i = Pending ∧ futures (exec s evs) i = Cancelled)).
Proof.
  unfold exec. revert s. induction evs as [|e evs IH]; intros s Hh; simpl.
  - split_and!; [done..| |by left]. exists []. by rewrite app_nil_r.
  - destruct (step_halted s e Hh) as (Hh' & Ht & Hst & [new Hq] & Hf).
    destruct (IH _ Hh') as (Ht' & Hst' & [new' Hq'] & Hf').
    split_and!; [congruence|congruence| |].
    + exists (new ++ new'). by rewrite Hq', Hq, app_assoc.
    + intros i. destruct (Hf i) as [Heq|[Hp Hc]], (Hf' i) as [Heq'|[Hp' Hc']].
      * left. congruence.
      * right. split; congruence.
      * right. split; congruence.
      * congruence.
Qed.

Lemma shutdown_stops s :
  Inv s → (∀ w x, tasks s !! w ≠ Some (Crashed x)) →
  is_Some (worker_task (step s EvShutdown)) →
  tasks (step s EvShutdown) = [Stopped].
Proof.
  intros (_ & Hpc) Hnc. simpl. unfold shutdown_event, cancel_worker, set_worker, set_fs.
  destruct Hpc as [(Hn & _)|(pc & Hn & Ht & Hok)]; rewrite Hn.
  - rewrite Hn. by intros [? ?].
  - rewrite Ht. simpl. destruct pc; simpl; intros _; rewrite ?Ht; try done.
    destruct (Hnc 0 e). by rewrite Ht.
Qed.

(** X3: once the shutdown handler has cancelled the worker of a running
    service, nothing brings it back, a later startup included: on every
    continuation the worker tasks stay as they are, no job is taken
    from the queue, the queue only grows, and no future gets a value (a
    pending one can only be cancelled at its handler's deadline). *)
Theorem shutdown_is_final fs0 evs evs' :
  let s := exec (init fs0) (evs ++ [EvShutdown]) in
  is_Some (worker_task s) →
  let s' := exec s evs' in
  tasks s = [Stopped]
  ∧ tasks s' = tasks s
  ∧ started s' = started s
  ∧ (∃ new, queue s' = queue s ++ new)
  ∧ (∀ i, futures s' i = futures s i
          ∨ (futures s i = Pending ∧ futures s' i = Cancelled)).
Proof.
  intros s Hsome.
  assert (tasks s = [Stopped]) as Ht.
  { unfold s in *. rewrite exec_snoc in *.
    apply shutdown_stops; [apply exec_Inv, init_Inv|apply exec_no_crash|done]. }
  assert (halted s) as Hh by (split; [done|rewrite Ht; by repeat constructor]).
  split; [done|]. by apply exec_halted.
Qed.

(** X4: the shutdown handler reaching a worker that is running a job
    removes that job's input file and leaves every future as it is (the
    job's handler is not answered by it); running the handler again
    changes nothing, whatever the state. *)
Theorem shutdown_mid_job s w task :
  worker_task s = Some w →
  tasks s !! w = Some (Running task) →
  let s' := step s EvShutdown in
  (audio_path task ∉ fs s')
  ∧ fs s' = fs s ∖ {[ audio_path task ]}
  ∧ futures s' = futures s
  ∧ queue s' = queue s
  ∧ tasks s' !! w = Some Stopped
  ∧ step s' EvShutdown = s'.
Proof.
  intros Hwt Hw. simpl. unfold shutdown_event, cancel_worker. rewrite Hwt, Hw. simpl.
  rewrite Hwt. unfold worker_finally.
  assert (<[w:=Stopped]> (tasks s) !! w = Some Stopped) as Hl
    by (apply list_lookup_insert_eq; by eapply lookup_lt_Some).
  rewrite Hl. split_and!; [set_solver|done..].
Qed.

(** ** A failed run and its caller *)

(** X5: on a run of the service, when [run_whisper] raises while the
    handler of the job is still waiting, the handler raises
    [HTTPException(500)] whose detail is the text of that exception;
    the job's input file is gone and the worker is back at the queue. *)
Theorem failure_reaches_caller fs0 evs w run task rid tid e :
  let s := exec (init fs0) evs in
  tasks s !! w = Some (Running task) →
  requests s !! rid = Some (Waiting tid (future task)) →
  run_whisper task run = Raise e →
  let s' := step (step s (EvWhisperDone w run)) (EvDeliver rid) in
  requests s' !! rid = Some (Returned (Raise (Exn (HTTPException 500) (exn_msg e))))
  ∧ (audio_path task ∉ fs s')
  ∧ tasks s' !! w = Some AwaitGet.
Proof.
  intros s Hw Hr Hrun.
  pose proof (waiting_on_running_pending fs0 evs w task rid tid Hw Hr) as Hp.
  cbv zeta in Hp. fold s in Hp.
  destruct (run_whisper_raises_Exception _ _ _ Hrun) as (_ & Hnt & Hnc).
  simpl. unfold worker_resume. rewrite Hw.
  rewrite worker_try_pending, Hrun by done. simpl.
  unfold transcribe_deliver. simpl. rewrite Hr.
  unfold fut_update. rewrite bool_decide_eq_true_2 by done. simpl.
  split_and!.
  - rewrite list_lookup_insert_eq by (by eapply lookup_lt_Some).
    unfold transcribe_reply. by destruct e as [[] msg].
  - unfold worker_finally. set_solver.
  - apply list_lookup_insert_eq. by eapply lookup_lt_Some.
Qed.

(** ** The worker left to drain the queue *)

Lemma worker_turn_futures s w run task rest :
  tasks s !! w = Some AwaitGet → queue s = task :: rest →
  let s' := step (step s (EvWorkerGet w)) (EvWhisperDone w run) in
  done (futures s' (future task)) = true.
Proof.
  intros Hw Hq. simpl. unfold worker_get. rewrite Hw, Hq.
  unfold worker_resume. simpl.
  rewrite list_lookup_insert_eq by (by eapply lookup_lt_Some).
  destruct (worker_try task run (futures s)) as [futs'|e] eqn:Htry; simpl.
  - by eapply worker_try_done_after.
  - destruct (worker_try_total task run (futures s)) as [? ?]. congruence.
Qed.

(** X6: a worker at the queue that is given one turn per queued job
    takes the jobs in queue order and empties the queue; afterwards
    the files on disk are those of before without the inputs of these
    jobs, and the future of every one of them is done. *)
Theorem worker_drains_queue w : ∀ runs s,
  tasks s !! w = Some AwaitGet →
  length runs = length (queue s) →
  let s' := exec s (worker_turns w runs) in
  queue s' = []
  ∧ started s' = started s ++ queue s
  ∧ tasks s' !! w = Some AwaitGet
  ∧ fs s' = fs s ∖ list_to_set (audio_path <$> queue s)
  ∧ Forall (λ t, done (futures s' (future t)) = true) (queue s).
Proof.
  induction runs as [|run runs IH]; intros s Hw Hlen.
  - destruct (queue s) eqn:Hq; [|done]. simpl.
    split_and!; [done|by rewrite app_nil_r|done|set_solver|constructor].
  - destruct (queue s) as [|task rest] eqn:Hq; [done|]. simpl in Hlen.
    destruct (worker_turn s w run task rest Hw Hq) as (Hw' & Hq' & Hfs' & Hst').
    pose proof (worker_turn_futures s w run task rest Hw Hq) as Hd.
    change (exec s (worker_turns w (run :: runs)))
      with (exec (step (step s (EvWorkerGet w)) (EvWhisperDone w run))
                 (worker_turns w runs)).
    set (s1 := step (step s (EvWorkerGet w)) (EvWhisperDone w run)) in *.
    destruct (IH s1 Hw' ltac:(rewrite Hq'; lia)) as (Hq2 & Hst2 & Hw2 & Hfs2 & Hd2).
    rewrite Hq' in *. split_and!; [done| |done| |].
    + rewrite Hst2, Hst'. by rewrite <- app_assoc.
    + rewrite Hfs2, Hfs'. simpl. set_solver.
    + constructor; [|done]. rewrite exec_done_stable; done.
Qed.

(** ** How a call can end *)

Lemma convert_raises_class source run disk e :
  path_name source ≠ [] →
  (convert_audio_to_whisper_format source run disk).2 = Raise e →
  exn_cls e = RuntimeError ∨ exn_cls e = UnicodeDecodeError.
Proof.
  intros Hn. destruct (with_suffix_normalized_ok source Hn) as [normalized Hws].
  unfold convert_audio_to_whisper_format. rewrite Hws.
  destruct (negb _ || negb _); simpl; [|done].
  destruct (ff_stderr run) as [err|]; simpl; [|intros [= <-]; by right].
  destruct (truthy (strip err)); simpl; [intros [= <-]; by left|].
  destruct (ff_stdout run); simpl; intros [= <-]; [by left|by right].
Qed.

Lemma init_Inv_reply fs0 : Inv_reply (init fs0).
Proof.
  split_and!; simpl; [intros rid r|done|intros rid tid source lang prm];
    by rewrite lookup_nil.
Qed.

Lemma step_Inv_reply s e : Inv_wait s → Inv_reply s → Inv_reply (step s e).
Proof.
  intros (_ & Hwait & _) (Hret & Hfail & Hconv). destruct e; simpl.
  - unfold startup_event. repeat case_match; simplify_eq; by split_and!.
  - unfold shutdown_event, cancel_worker, set_worker, set_fs.
    repeat case_match; by split_and!.
  - unfold transcribe_begin, verify_token.
    destruct (negb _ || negb _); (split_and!; simpl; [|done|]).
    + intros rid r [Hl|(_ & Hl)]%lookup_app_Some; [eauto|].
      destruct (rid - length (requests s)) as [|[|]]; by simplify_eq/=.
    + intros rid tid source lang' prm' [Hl|(_ & Hl)]%lookup_app_Some; [eauto|].
      by destruct (rid - length (requests s)) as [|[|]].
    + intros rid r [Hl|(_ & Hl)]%lookup_app_Some; [eauto|].
      by destruct (rid - length (requests s)) as [|[|]].
    + intros rid tid source lang' prm' [Hl|(_ & Hl)]%lookup_app_Some; [eauto|].
      destruct (rid - length (requests s)) as [|[|]]; by simplify_eq/=.
  - unfold transcribe_converted, set_request, set_fs.
    destruct (requests s !! rid) as [[tid source lang prm| |]|] eqn:Hrid;
      [|by split_and!..].
    pose proof (Hconv _ _ _ _ _ Hrid) as Hn.
    pose proof (convert_raises_class source run (fs s)) as Hcls.
    destruct (convert_audio_to_whisper_format source run (fs s)) as [disk [normalized|e]];
      (split_and!; simpl; [|done|]).
    + intros rid' r [(_ & ? & _)|(_ & Hl)]%list_lookup_insert_Some; [done|eauto].
    + intros rid' tid' source' lang' prm'
        [(_ & ? & _)|(_ & Hl)]%list_lookup_insert_Some; [done|eauto].
    + intros rid' r [(_ & [= <-] & _)|(_ & Hl)]%list_lookup_insert_Some; [|eauto].
      simpl. by destruct (Hcls e Hn eq_refl) as [-> | ->].
    + intros rid' tid' source' lang' prm'
        [(_ & ? & _)|(_ & Hl)]%list_lookup_insert_Some; [done|eauto].
  - unfold transcribe_deliver, set_request.
    destruct (requests s !! rid) as [[| tid fut |]|] eqn:Hrid; try by split_and!.
    destruct (done (futures s fut)) eqn:Hd; [|by split_and!].
    destruct (Hwait _ _ _ Hrid) as [_ Hnc].
    split_and!; simpl; [|done|].
    + intros rid' r [(_ & [= <-] & _)|(_ & Hl)]%list_lookup_insert_Some; [|eauto].
      destruct (futures s fut) as [|text|e|] eqn:Hf; try done.
      pose proof (Hfail _ _ Hf) as Hex. unfold is_Exception in Hex.
      simpl. by destruct (exn_cls e).
    + intros rid' tid' source' lang' prm'
        [(_ & ? & _)|(_ & Hl)]%list_lookup_insert_Some; [done|eauto].
  - unfold transcribe_timeout, set_request, set_futures.
    destruct (requests s !! rid) as [[| tid fut |]|] eqn:Hrid; try by split_and!.
    destruct (done (futures s fut)) eqn:Hd; [by split_and!|].
    split_and!; simpl.
    + intros rid' r [(_ & [= <-] & _)|(_ & Hl)]%list_lookup_insert_Some; [done|eauto].
    + intros i e. unfold cancel, fut_update. rewrite Hd.
      case_bool_decide; [done|eauto].
    + intros rid' tid' source' lang' prm'
        [(_ & ? & _)|(_ & Hl)]%list_lookup_insert_Some; [done|eauto].
  - unfold worker_get. repeat case_match; by split_and!.
  - unfold worker_resume, set_worker, set_futures, set_fs.
    destruct (tasks s !! w) as [[| task | |]|]; try by split_and!.
    destruct (worker_try task run (futures s)) as [futs'|e] eqn:Htry;
      [|by split_and!].
    split_and!; simpl; [done| |done].
    intros i e Hf. destruct (done (futures s (future task))) eqn:Hd.
    + rewrite worker_try_done in Htry by done. simplify_eq. eauto.
    + assert (futures s (future task) = Pending) as Hp
        by (by destruct (futures s (future task))).
      rewrite worker_try_pending in Htry by done. injection Htry as <-.
      unfold fut_update in Hf. case_bool_decide; [|eauto].
      destruct (run_whisper task run) as [|e'] eqn:Hrun; [done|].
      injection Hf as ->. by destruct (run_whisper_raises_Exception _ _ _ Hrun).
Qed.

Lemma exec_Inv_reply fs0 evs :
  Inv_wait (exec (init fs0) evs) ∧ Inv_reply (exec (init fs0) evs).
Proof.
  assert (Inv (exec (init fs0) evs) ∧ Inv_jobs (exec (init fs0) evs)
          ∧ Inv_wait (exec (init fs0) evs) ∧ Inv_reply (exec (init fs0) evs))
    as (_ & _ & HW & HR); [|done].
  induction evs as [|e evs (HI & HJ & HW & HR)] using rev_ind.
  - split_and!; [apply init_Inv|apply init_Inv_jobs|apply init_Inv_wait|apply init_Inv_reply].
  - rewrite exec_snoc. split_and!;
      [by apply step_Inv|by apply step_Inv_jobs|by apply step_Inv_wait|by apply step_Inv_reply].
Qed.

Lemma step_waiting_reply s e rid tid fut :
  Inv_wait s → Inv_reply s →
  requests s !! rid = Some (Waiting tid fut) →
  requests (step s e) !! rid = Some (Waiting tid fut)
  ∨ (∃ text, requests (step s e) !! rid = Some (Returned (Ok (mkResponse tid text))))
  ∨ requests (step s e) !! rid = Some (Returned (Raise gateway_timeout))
  ∨ (∃ msg, requests (step s e) !! rid
            = Some (Returned (Raise (Exn (HTTPException 500) msg)))).
Proof.
  intros (_ & Hwait & _) (_ & Hfail & _) Hr. destruct e; simpl.
  - left. unfold startup_event. by repeat case_match; simplify_eq.
  - left. unfold shutdown_event, cancel_worker, set_worker, set_fs. by repeat case_match.
  - left. unfold transcribe_begin. destruct (verify_token authorization); simpl;
      by apply lookup_app_l_Some.
  - left. unfold transcribe_converted, set_request, set_fs.
    destruct (requests s !! rid0) as [[tid0 source lang prm| |]|] eqn:Hr0; [|done..].
    assert (rid ≠ rid0) by congruence.
    destruct (convert_audio_to_whisper_format source run (fs s)) as [disk [normalized|e]];
      simpl; by rewrite list_lookup_insert_ne.
  - unfold transcribe_deliver, set_request.
    destruct (decide (rid0 = rid)) as [->|Hne].
    + rewrite Hr. destruct (done (futures s fut)) eqn:Hd; [|by left]. right. simpl.
      rewrite list_lookup_insert_eq by (by eapply lookup_lt_Some).
      destruct (Hwait _ _ _ Hr) as [_ Hnc].
      destruct (futures s fut) as [|text|e|] eqn:Hf; try done.
      * left. by exists text.
      * right. pose proof (Hfail _ _ Hf) as Hex. unfold is_Exception in Hex.
        simpl. destruct (exn_cls e); try done; try (right; by eexists). by left.
    + left. destruct (requests s !! rid0) as [[| tid0 fut0 |]|]; try done.
      destruct (done _); simpl; [|done]. by rewrite list_lookup_insert_ne.
  - unfold transcribe_timeout, set_request, set_futures.
    destruct (decide (rid0 = rid)) as [->|Hne].
    + rewrite Hr. destruct (done (futures s fut)) eqn:Hd; [by left|]. right. right. left.
      simpl. by rewrite list_lookup_insert_eq by (by eapply lookup_lt_Some).
    + left. destruct (requests s !! rid0) as [[| tid0 fut0 |]|]; try done.
      destruct (done _); simpl; [done|]. by rewrite list_lookup_insert_ne.
  - left. unfold worker_get. by repeat case_match.
  - left. unfold worker_resume, set_worker, set_futures, set_fs. by repeat case_match.
Qed.

(** X7: a call of [transcribe_audio] that has queued its job and waits
    for the job's future (and is not itself cancelled) ends in one of
    three ways only: with the response that carries its own task id,
    with [HTTPException] 504 and the detail [Transcription timed out],
    or with [HTTPException] 500; in particular the future it waits on
    is never cancelled under it, so that the wait never ends with
    [CancelledError]. *)
Theorem waiting_call_ends_three_ways fs0 evs evs' rid tid fut r :
  let s := exec (init fs0) evs in
  requests s !! rid = Some (Waiting tid fut) →
  requests (exec s evs') !! rid = Some (Returned r) →
  (∃ text, r = Ok (mkResponse tid text))
  ∨ r = Raise gateway_timeout
  ∨ (∃ msg, r = Raise (Exn (HTTPException 500) msg)).
Proof.
  intros s Hw.
  assert (requests (exec s evs') !! rid = Some (Waiting tid fut)
          ∨ (∃ text, requests (exec s evs') !! rid
                     = Some (Returned (Ok (mkResponse tid text))))
          ∨ requests (exec s evs') !! rid = Some (Returned (Raise gateway_timeout))
          ∨ (∃ msg, requests (exec s evs') !! rid
                    = Some (Returned (Raise (Exn (HTTPException 500) msg))))) as Hcases.
  { induction evs' as [|e evs' IH] using rev_ind; [by left|].
    rewrite exec_snoc.
    destruct IH as [Hwait|[[text Ht]|[Ht|[msg Hm]]]].
    - assert (exec s evs' = exec (init fs0) (evs ++ evs')) as Heq
        by (unfold s, exec; by rewrite fold_left_app).
      destruct (exec_Inv_reply fs0 (evs ++ evs')) as [HW HR].
      rewrite <- Heq in HW, HR. by apply step_waiting_reply.
    - right. left. exists text. by apply step_returned_final.
    - right. right. left. by apply step_returned_final.
    - right. right. right. exists msg. by apply step_returned_final. }
  intros Hr. destruct Hcases as [Hwait|[[text Ht]|[Ht|[msg Hm]]]].
  - congruence.
  - left. exists text. congruence.
  - right. left. congruence.
  - right. right. exists msg. congruence.
Qed.

(** ** A service without a token *)

Lemma step_inert fs0 s e : API_TOKEN = [] → inert fs0 s → inert fs0 (step s e).
Proof.
  intros Htok (Hwt & Ht & Hq & Hfs & Hnf & Hreq).
  assert (∀ rid pc, requests s !! rid = Some pc → ∃ r, pc = Returned r) as Hret.
  { intros rid pc Hl. rewrite (proj1 (Forall_lookup _ _) Hreq _ _ Hl). eauto. }
  destruct e; simpl.
  - unfold startup_event. rewrite Htok. by simpl.
  - unfold shutdown_event. by rewrite Hwt.
  - unfold transcribe_begin, verify_token. rewrite Htok. simpl.
    split_and!; simpl; [done..|]. apply Forall_app. split; [done|]. by repeat constructor.
  - unfold transcribe_converted.
    destruct (requests s !! rid) as [pc|] eqn:Hl; [|done].
    by destruct (Hret _ _ Hl) as [r ->].
  - unfold transcribe_deliver.
    destruct (requests s !! rid) as [pc|] eqn:Hl; [|done].
    by destruct (Hret _ _ Hl) as [r ->].
  - unfold transcribe_timeout.
    destruct (requests s !! rid) as [pc|] eqn:Hl; [|done].
    by destruct (Hret _ _ Hl) as [r ->].
  - unfold worker_get. by rewrite Ht, lookup_nil.
  - unfold worker_resume. by rewrite Ht, lookup_nil.
Qed.

(** X8: with an empty [API_TOKEN] the service does nothing but refuse:
    whatever happens, no worker is ever started, no file is written, no
    job or future is created, and every call of [transcribe_audio] has
    ended with the 401. *)
Theorem empty_token_service_is_inert fs0 evs :
  API_TOKEN = [] →
  let s := exec (init fs0) evs in
  worker_task s = None ∧ tasks s = [] ∧ queue s = [] ∧ fs s = fs0
  ∧ next_future s = 0
  ∧ Forall (λ pc, pc = Returned (Raise (Exn (HTTPException 401)
                                          (lit "Invalid or missing bearer token"))))
           (requests s).
Proof.
  intros Htok. simpl.
  induction evs as [|e evs IH] using rev_ind.
  - by repeat split.
  - rewrite exec_snoc. by apply step_inert.
Qed.

(** ** Stripping *)

Lemma lstrip_spec s :
  ∃ pre, s = pre ++ lstrip s
         ∧ Forall (λ c, is_space c = true) pre
         ∧ (∀ c r, lstrip s = c :: r → is_space c = false).
Proof.
  induction s as [|c s (pre & Hs & Hpre & Hhd)]; simpl.
  - exists []. split_and!; [done|constructor|done].
  - destruct (is_space c) eqn:Hc.
    + exists (c :: pre). split_and!; [by rewrite Hs at 1|by constructor|done].
    + exists []. split_and!; [done|constructor|]. by intros c' r [= <- <-].
Qed.

Lemma rstrip_spec s :
  ∃ post, s = rstrip s ++ post
          ∧ Forall (λ c, is_space c = true) post
          ∧ (∀ c r, rstrip s = r ++ [c] → is_space c = false).
Proof.
  unfold rstrip. destruct (lstrip_spec (rev s)) as (pre & Hs & Hpre & Hhd).
  exists (rev pre). split_and!.
  - rewrite <- rev_app_distr, <- Hs. by rewrite rev_involutive.
  - by apply List.Forall_rev.
  - intros c r Hr. apply (Hhd c (rev r)).
    rewrite <- (rev_involutive (lstrip (rev s))), Hr, rev_app_distr. done.
Qed.

Lemma strip_trimmed s : trimmed (strip s).
Proof.
  unfold strip.
  destruct (lstrip_spec s) as (pre & _ & _ & Hhd).
  destruct (rstrip_spec (lstrip s)) as (post & Hs & Hpost & Hlast).
  split; [|done]. intros c r Hr. rewrite Hr in Hs. by apply (Hhd c (r ++ post)).
Qed.

Lemma strip_of_trimmed s : trimmed s → strip s = s.
Proof.
  intros [Hhd Hlast].
  assert (lstrip s = s) as Hl.
  { destruct s as [|c r]; [done|]. simpl. by rewrite (Hhd c r). }
  unfold strip, rstrip. rewrite Hl.
  destruct (rev s) as [|c r] eqn:Hrev; [by rewrite <- (rev_involutive s), Hrev|].
  assert (s = rev r ++ [c]) as Hs by (by rewrite <- (rev_involutive s), Hrev).
  simpl. rewrite (Hlast c (rev r) Hs). simpl. by rewrite Hs.
Qed.

(** X9: the text [run_whisper] returns never starts or ends with a
    whitespace character, and stripping it again changes nothing; when
    the artifact's text is all whitespace the returned text is empty. *)
Theorem whisper_text_is_trimmed task run text :
  run_whisper task run = Ok text →
  trimmed text ∧ strip text = text
  ∧ (∀ raw, artifact_text (wh_artifact run) = Some raw →
       Forall (λ c, is_space c = true) raw → text = []).
Proof.
  intros (_ & raw & Hraw & ->)%run_whisper_ok_iff.
  split_and!; [apply strip_trimmed|apply strip_of_trimmed, strip_trimmed|].
  intros raw' Hraw' Hall. rewrite Hraw in Hraw'. injection Hraw' as <-.
  unfold strip. assert (lstrip raw = []) as ->; [|reflexivity].
  clear Hraw. induction Hall as [|c r Hc _ IH]; [done|]. simpl. by rewrite Hc.
Qed.

(** X10: when the normalisation raises a [RuntimeError], its text is
    ["audio conversion failed: "] followed by a non-empty detail with no
    surrounding whitespace: what the converter wrote to stderr, else to
    stdout, else ["unknown ffmpeg error"]; the only other exception it
    raises for a named file is the [UnicodeDecodeError] of a stream. *)
Theorem conversion_error_text source run disk e :
  path_name source ≠ [] →
  (convert_audio_to_whisper_format source run disk).2 = Raise e →
  (∃ reason, e = Exn UnicodeDecodeError reason)
  ∨ (∃ detail,
        e = Exn RuntimeError (lit "audio conversion failed: " ++ detail)
        ∧ detail ≠ [] ∧ trimmed detail
        ∧ (∀ err out, ff_stderr run = Text err → ff_stdout run = Text out →
             detail = or_str (strip err) (or_str (strip out) (lit "unknown ffmpeg error")))).
Proof.
  intros Hn. destruct (with_suffix_normalized_ok source Hn) as [normalized Hws].
  unfold convert_audio_to_whisper_format. rewrite Hws.
  destruct (negb _ || negb _); simpl; [|done].
  destruct (ff_stderr run) as [err|reason]; simpl; [|intros [= <-]; left; eauto].
  destruct (truthy (strip err)) eqn:Herr; simpl.
  - intros [= <-]. right. exists (strip err). split_and!; [done| |apply strip_trimmed|].
    + by destruct (strip err).
    + intros err' out [= <-] _. unfold or_str. by rewrite Herr.
  - destruct (ff_stdout run) as [out|reason]; simpl; intros [= <-]; [|left; eauto].
    right. exists (or_str (strip out) (lit "unknown ffmpeg error")).
    split_and!; [done| | |].
    + unfold or_str. by destruct (strip out).
    + unfold or_str. destruct (truthy (strip out)); [apply strip_trimmed|].
      split; intros c r Hr.
      * by injection Hr as <- _.
      * destruct r as [|c1 r] using rev_ind; [done|].
        apply (f_equal (@rev N)) in Hr. rewrite rev_app_distr in Hr. simpl in Hr.
        by injection Hr as <- _.
    + intros err' out' [= <-] [= <-]. unfold or_str. rewrite Herr. reflexivity.
Qed.

(** ** The names of the temp files *)

Lemma rfind_not_in c s : c ∉ s → rfind c s = None.
Proof.
  induction s as [|x r IH]; simpl; [done|].
  intros Hn. rewrite IH by set_solver.
  destruct (N.eqb_spec x c) as [->|]; [|done]. set_solver.
Qed.

Lemma rfind_last c stem rest :
  c ∉ rest → rfind c (stem ++ c :: rest) = Some (length stem).
Proof.
  intros Hn. induction stem as [|x stem IH]; simpl.
  - by rewrite rfind_not_in, N.eqb_refl.
  - by rewrite IH.
Qed.

Lemma suffix_shape name :
  suffix name = [] ∨
  ∃ stem rest, name = stem ++ dot :: rest ∧ suffix name = dot :: rest
               ∧ (dot ∉ rest) ∧ rest ≠ [] ∧ stem ≠ [].
Proof.
  unfold suffix. destruct (rfind dot name) as [i|] eqn:Hr; [|by left].
  destruct (_ && _) eqn:Hb; [|by left].
  apply andb_prop in Hb as [Hi Hlen]. apply Nat.ltb_lt in Hi, Hlen.
  right. destruct (rfind_Some _ _ _ Hr) as (rest & Hd & Hnot).
  assert (name = take i name ++ dot :: rest) as Hname by (by rewrite <- Hd, take_drop).
  exists (take i name), rest. split_and!; [done..| |].
  - intros ->. apply (f_equal length) in Hd. rewrite length_drop in Hd. simpl in Hd. lia.
  - intros Ht. apply (f_equal length) in Ht. rewrite length_take in Ht. simpl in Ht. lia.
Qed.

Lemma suffix_of_dotted stem rest :
  stem ≠ [] → rest ≠ [] → dot ∉ rest → suffix (stem ++ dot :: rest) = dot :: rest.
Proof.
  intros Hs Hr Hn. unfold suffix. rewrite rfind_last by done.
  rewrite length_app. simpl.
  assert (0 < length stem) by (destruct stem; [done|simpl; lia]).
  assert (0 < length rest) by (destruct rest; [done|simpl; lia]).
  rewrite (proj2 (Nat.ltb_lt _ _)) by lia. rewrite (proj2 (Nat.ltb_lt _ _)) by lia.
  simpl. by rewrite drop_app_length.
Qed.

Lemma split_on_no_sep sep s x : x ∈ split_on sep s → sep ∉ x.
Proof.
  revert x. induction s as [|c s IH]; simpl; intros x.
  - intros ->%list_elem_of_singleton. apply not_elem_of_nil.
  - destruct (N.eqb_spec c sep) as [->|Hne].
    + intros [->|?]%elem_of_cons; [apply not_elem_of_nil|by apply IH].
    + destruct (split_on sep s) as [|w ws].
      * intros ->%list_elem_of_singleton. set_solver.
      * intros [->|?]%elem_of_cons; [|apply IH; set_solver].
        assert (sep ∉ w) by (apply IH; set_solver). set_solver.
Qed.

Lemma last_default_or_elem {A} (l : list A) d : List.last l d = d ∨ List.last l d ∈ l.
Proof.
  induction l as [|x [|y l] IH]; simpl in *; [by left|right; set_solver|].
  destruct IH as [->|?]; [by left|right; set_solver].
Qed.

Lemma name_of_no_slash s : slash ∉ name_of s.
Proof.
  unfold name_of. destruct (last_default_or_elem (path_parts s) []) as [->|Hin].
  - apply not_elem_of_nil.
  - unfold path_parts in Hin. apply list_elem_of_filter in Hin as [_ Hin].
    by eapply split_on_no_sep.
Qed.

(** X11: whatever name the upload carries, the suffix given to the
    staged temp file is a dot followed by at least one character, with
    no further dot and no path separator in it; it is [".tmp"] when the
    name is missing or empty or its last component has no extension. *)
Theorem source_suffix_shape filename :
  (∃ rest, source_suffix filename = dot :: rest
           ∧ rest ≠ [] ∧ (dot ∉ rest) ∧ (slash ∉ rest))
  ∧ (suffix (name_of (or_str (default [] filename) (lit "audio"))) = [] →
     source_suffix filename = lit ".tmp")
  ∧ source_suffix None = lit ".tmp"
  ∧ source_suffix (Some []) = lit ".tmp".
Proof.
  split_and!; [| |by vm_compute..].
  - unfold source_suffix.
    set (name := name_of (or_str (default [] filename) (lit "audio"))).
    destruct (suffix_shape name) as [->|(stem & rest & Hname & -> & Hdot & Hne & _)].
    + exists (lit "tmp"). split_and!; [done..| |]; vm_compute; set_solver.
    + exists rest. split_and!; [done..|].
      pose proof (name_of_no_slash (or_str (default [] filename) (lit "audio"))) as Hs.
      fold name in Hs. rewrite Hname in Hs. set_solver.
  - unfold source_suffix. by intros ->.
Qed.

Lemma staged_suffix rnd filename :
  suffix (path_name (staged_path rnd (source_suffix filename))) = source_suffix filename.
Proof.
  destruct (suffix_shape (name_of (or_str (default [] filename) (lit "audio"))))
    as [Hnone|(stem & rest & _ & Hsfx & Hdot & Hne & _)]; unfold source_suffix.
  - rewrite Hnone. change (or_str [] (lit ".tmp")) with (dot :: lit "tmp").
    unfold staged_path. cbn [path_name]. rewrite app_assoc.
    apply suffix_of_dotted; [done..|]. vm_compute. set_solver.
  - rewrite Hsfx. unfold staged_path, or_str. cbn [path_name truthy].
    rewrite app_assoc. apply suffix_of_dotted; done.
Qed.

Lemma staged_with_suffix rnd filename :
  with_suffix (staged_path rnd (source_suffix filename)) (lit ".normalized.wav")
  = Ok (mkPath TMPDIR (lit "tmp" ++ rnd ++ lit ".normalized.wav")).
Proof.
  assert (∃ c rest, source_suffix filename = c :: rest) as (c & rest & Hsfx).
  { unfold source_suffix, or_str. destruct (suffix _); simpl; eauto. }
  pose proof (staged_suffix rnd filename) as Hsuf.
  set (staged := staged_path rnd (source_suffix filename)) in *.
  assert (path_name staged = (lit "tmp" ++ rnd) ++ c :: rest) as Hname
    by (unfold staged, staged_path; cbn [path_name]; by rewrite Hsfx, app_assoc).
  unfold with_suffix.
  replace (bool_decide (slash ∈ lit ".normalized.wav") || _ || _) with false
    by (by vm_compute).
  assert (truthy (path_name staged) = true) as -> by (by rewrite Hname).
  rewrite Hsuf, Hsfx. cbn [negb truthy]. f_equal. f_equal.
  rewrite Hname, length_app. cbn [length].
  replace (length (lit "tmp" ++ rnd) + S (length rest) - S (length rest))
    with (length (lit "tmp" ++ rnd)) by lia.
  rewrite take_app_length. by rewrite <- app_assoc.
Qed.

(** X12: the staged file keeps the suffix computed from the upload's
    name, and the normalised file is always
    [<tmpdir>/tmp<rnd>.normalized.wav]: its name does not depend on the
    upload's name at all and is never the staged file's own name. *)
Theorem normalized_path_of_staged rnd filename :
  let staged := staged_path rnd (source_suffix filename) in
  let normalized := mkPath TMPDIR (lit "tmp" ++ rnd ++ lit ".normalized.wav") in
  suffix (path_name staged) = source_suffix filename
  ∧ with_suffix staged (lit ".normalized.wav") = Ok normalized
  ∧ normalized ≠ staged.
Proof.
  intros staged normalized.
  pose proof (staged_with_suffix rnd filename) as Hws.
  split_and!; [apply staged_suffix|done|by eapply with_suffix_normalized_ne].
Qed.

(** ** Files that stay and files that go *)

(** X13: of the files the service keeps in the temp directory itself,
    the staged uploads and the normalised audio files that make up
    [fs], one disappears in three places only: the staged upload when
    its converter has exited, the input of the job the worker has just
    run, and the input of the job a cancelled worker was running.  (The
    [TemporaryDirectory] of [run_whisper], which its own [with] block
    removes with what the engine wrote into it, is not one of these
    files.) *)
Theorem files_removed_only_by_owner s e p :
  p ∈ fs s → p ∉ fs (step s e) →
  (∃ rid run tid lang prm,
      e = EvConverted rid run
      ∧ requests s !! rid = Some (Converting tid p lang prm))
  ∨ (∃ w run task,
      e = EvWhisperDone w run
      ∧ tasks s !! w = Some (Running task) ∧ audio_path task = p)
  ∨ (∃ w task,
      e = EvShutdown ∧ worker_task s = Some w
      ∧ tasks s !! w = Some (Running task) ∧ audio_path task = p).
Proof.
  intros Hin Hout. destruct e; simpl in Hout.
  - unfold startup_event in Hout. by repeat case_match; simplify_eq.
  - right. right. unfold shutdown_event, cancel_worker, set_worker, set_fs in Hout.
    destruct (worker_task s) as [w|] eqn:Hwt; [|done].
    destruct (tasks s !! w) as [[| task | |]|] eqn:Hw; try done.
    simpl in Hout. unfold worker_finally in Hout.
    exists w, task. split_and!; [done..|].
    destruct (decide (audio_path task = p)); [done|set_solver].
  - unfold transcribe_begin in Hout.
    destruct (verify_token authorization); simpl in Hout; set_solver.
  - left. unfold transcribe_converted, set_request, set_fs in Hout.
    destruct (requests s !! rid) as [[tid source lang prm| |]|] eqn:Hrid; try done.
    assert (fs s ⊆ (convert_audio_to_whisper_format source run (fs s)).1) as Hsub.
    { unfold convert_audio_to_whisper_format.
      destruct (with_suffix _ _); simpl; [|done].
      destruct (ff_wrote_output run); destruct (_ || _); simpl; set_solver. }
    destruct (convert_audio_to_whisper_format source run (fs s)) as [disk [normalized|x]];
      simpl in *; (destruct (decide (source = p)) as [->|]; [eauto 10|set_solver]).
  - unfold transcribe_deliver, set_request in Hout. by repeat case_match.
  - unfold transcribe_timeout, set_request, set_futures in Hout. by repeat case_match.
  - unfold worker_get in Hout. by repeat case_match.
  - right. left. unfold worker_resume, set_worker, set_futures, set_fs in Hout.
    destruct (tasks s !! w) as [[| task | |]|] eqn:Hw; try done.
    exists w, run, task. split_and!; [done..|].
    destruct (decide (audio_path task = p)); [done|].
    destruct (worker_try task run (futures s)); simpl in Hout;
      unfold worker_finally in Hout; set_solver.
Qed.

(** X14: when the converter exits with a non-zero status after having
    written its output file, the handler raises, no job is created, the
    staged upload is removed, and the normalised file is left on disk. *)
Theorem failed_conversion_leaves_artifact s rid tid source lang prm run normalized :
  requests s !! rid = Some (Converting tid source lang prm) →
  with_suffix source (lit ".normalized.wav") = Ok normalized →
  ff_returncode run ≠ 0%Z →
  ff_wrote_output run = true →
  let s' := step s (EvConverted rid run) in
  normalized ∈ fs s'
  ∧ (source ∉ fs s')
  ∧ queue s' = queue s ∧ submitted s' = submitted s
  ∧ ∃ e, requests s' !! rid = Some (Returned (Raise e)).
Proof.
  intros Hr Hws Hrc Hwrote.
  destruct (convert_spec source run (fs s) normalized Hws) as (Hdisk & Hiff & _).
  rewrite Hwrote in Hdisk.
  assert (raises (convert_audio_to_whisper_format source run (fs s)).2 = true) as Hraise
    by (apply Hiff; by left).
  pose proof (with_suffix_normalized_ne _ _ Hws) as Hne.
  simpl. unfold transcribe_converted. rewrite Hr.
  destruct (convert_audio_to_whisper_format source run (fs s)) as [disk [n|e]];
    simpl in *; [done|]. subst disk.
  split_and!; [set_solver|set_solver|done..|].
  exists e. apply list_lookup_insert_eq. by eapply lookup_lt_Some.
Qed.

(** ** What a run's outcome depends on *)

(** X15: when the engine exits with a non-zero status the artifact is
    never looked at: the outcome is the same whatever it is; stderr,
    when it has anything but whitespace, gives the detail and stdout
    is not consulted, and when stderr is blank the detail is stdout
    stripped, which may be empty. *)
Theorem whisper_failure_detail task run :
  wh_returncode run ≠ 0%Z →
  let failed detail :=
    Raise (Exn RuntimeError
             (lit "whisper.cpp failed with code " ++ str_of_int (wh_returncode run)
              ++ lit ": " ++ detail)) in
  (∀ a, run_whisper task
          (WhisperRun (wh_returncode run) (wh_stdout run) (wh_stderr run) a)
        = run_whisper task run)
  ∧ (∀ err out,
       wh_stderr run = Text err → strip err ≠ [] →
       run_whisper task run = failed (strip err)
       ∧ run_whisper task (WhisperRun (wh_returncode run) out (wh_stderr run)
                             (wh_artifact run))
         = run_whisper task run)
  ∧ (∀ err out,
       wh_stderr run = Text err → strip err = [] → wh_stdout run = Text out →
       run_whisper task run = failed (strip out)).
Proof.
  intros Hrc failed.
  assert (∀ r, wh_returncode r = wh_returncode run →
            run_whisper task r =
              (err ← strip <$> decode (wh_stderr r);
               detail ← (if truthy err then Ok err else strip <$> decode (wh_stdout r));
               failed detail)) as Heq.
  { intros r Hr. unfold run_whisper. rewrite Hr.
    by destruct (Z.eqb_spec (wh_returncode run) 0). }
  split_and!.
  - intros a. by rewrite !Heq.
  - intros err out Herr Hne. rewrite !Heq by done. simpl. rewrite Herr. simpl.
    by destruct (strip err).
  - intros err out Herr Hblank Hout. rewrite Heq by done.
    rewrite Herr, Hout. simpl. by rewrite Hblank.
Qed.

(** ** The engine's command line *)

(** X16: the engine is always called with the same eight leading
    arguments, the job's input path being the fifth; a hint adds its
    flag and its value as two further arguments exactly when it is a
    non-empty string, so that an empty hint is the same as none; the
    language comes right after the leading arguments and the prompt
    comes last. *)
Theorem whisper_cmd_hints task output_prefix :
  let cmd := whisper_cmd task output_prefix in
  let given (hint : option pystr) := truthy (default [] hint) in
  take 8 cmd = [WHISPER_CPP_BIN; lit "-m"; WHISPER_MODEL_PATH;
                lit "-f"; path_str (audio_path task);
                lit "-oj"; lit "-of"; output_prefix]
  ∧ length cmd = 8 + (if given (language task) then 2 else 0)
                   + (if given (prompt task) then 2 else 0)
  ∧ whisper_cmd (mkTask (task_id task) (audio_path task)
                        (if given (language task) then language task else None)
                        (if given (prompt task) then prompt task else None)
                        (future task)) output_prefix = cmd
  ∧ (∀ l, language task = Some l → l ≠ [] →
       cmd !! 8 = Some (lit "-l") ∧ cmd !! 9 = Some l)
  ∧ (∀ p, prompt task = Some p → p ≠ [] →
       cmd !! (length cmd - 2) = Some (lit "--prompt")
       ∧ cmd !! (length cmd - 1) = Some p).
Proof.
  intros cmd given. unfold cmd, whisper_cmd, extend_if, given.
  destruct task as [tid path [[|c l]|] [[|d p]|] fut]; simpl;
    (split_and!; [done..| |]);
    try (by intros ? [= <-] ?); done.
Qed.

(** ** Jobs on record *)

(** X17: on every run of the service the jobs carry the futures
    0, 1, 2, ... in the order they were submitted, so no job is on
    record twice; no job is taken twice, a job still in the queue has
    not been taken, and its future holds no value yet. *)
Theorem jobs_are_unique fs0 evs :
  let s := exec (init fs0) evs in
  future <$> submitted s = seq 0 (next_future s)
  ∧ NoDup (submitted s)
  ∧ NoDup (started s)
  ∧ (∀ t, t ∈ queue s → t ∉ started s)
  ∧ Forall (λ t, has_value (futures s (future t)) = false) (queue s).
Proof.
  intros s.
  destruct (exec_Inv (init fs0) evs (init_Inv fs0)) as (Hq & _).
  destruct (exec_Inv_jobs (init fs0) evs (init_Inv_jobs fs0)) as (Hn & Hi & _).
  destruct (exec_Inv_wait (init fs0) evs (init_Inv fs0) (init_Inv_jobs fs0)
              (init_Inv_wait fs0)) as (_ & _ & _ & Hval).
  fold s in Hq, Hn, Hi, Hval.
  assert (future <$> submitted s = seq 0 (next_future s)) as Hseq.
  { apply list_eq. intros i. rewrite list_lookup_fmap, Hn.
    destruct (submitted s !! i) as [t|] eqn:Hl; simpl.
    - rewrite (Hi _ _ Hl). symmetry. apply lookup_seq. split; [done|].
      by eapply lookup_lt_Some.
    - symmetry. apply lookup_seq_ge. by apply lookup_ge_None. }
  assert (NoDup (submitted s)) as Hnd.
  { apply (NoDup_fmap_1 future). rewrite Hseq. apply NoDup_seq. }
  pose proof Hnd as Hnd'. rewrite Hq in Hnd'.
  apply NoDup_app in Hnd' as (Hst & Hdisj & _).
  split_and!; [done..| |].
  - intros t Hin Hin'. by apply (Hdisj t).
  - apply Forall_forall. intros t [i Hl]%list_elem_of_lookup.
    destruct (has_value (futures s (future t))) eqn:Hv; [|done].
    destruct (Hval _ Hv) as [Hlt _].
    assert (submitted s !! (length (started s) + i) = Some t) as Hl'
      by (by rewrite Hq, lookup_app_r, Nat.add_comm, Nat.add_sub by lia).
    rewrite (Hi _ _ Hl') in Hlt. lia.
Qed.

(** ** The converter's command line *)

Lemma path_str_same_parent p q :
  path_parent p = path_parent q → path_str p = path_str q → p = q.
Proof.
  destruct p as [dir n], q as [dir' n']. simpl. intros <-. unfold path_str. simpl.
  destruct dir as [|c dir]; [by intros ->|].
  case_bool_decide.
  - by intros [= ->].
  - intros Heq. change (c :: dir ++ slash :: n) with ((c :: dir) ++ slash :: n) in Heq.
    change (c :: dir ++ slash :: n') with ((c :: dir) ++ slash :: n') in Heq.
    apply app_inv_head in Heq. by injection Heq as ->.
Qed.

(** X18: the converter is called with eleven arguments, [-y] among
    them, the source as its input and the derived path as its output;
    for every source with a name the two are different strings, so the
    overwrite flag never lets the converter write over its own input. *)
Theorem ffmpeg_cmd_input_is_not_output source :
  path_name source ≠ [] →
  ∃ normalized,
    with_suffix source (lit ".normalized.wav") = Ok normalized
    ∧ let cmd := ffmpeg_cmd source normalized in
      length cmd = 11
      ∧ cmd !! 1 = Some (lit "-y")
      ∧ cmd !! 3 = Some (path_str source)
      ∧ cmd !! 10 = Some (path_str normalized)
      ∧ path_str source ≠ path_str normalized.
Proof.
  intros Hn. destruct (with_suffix_normalized_ok source Hn) as [normalized Hws].
  exists normalized. split; [done|]. split_and!; [done..|].
  intros Heq. apply (with_suffix_normalized_ne _ _ Hws). symmetry.
  apply path_str_same_parent; [|done].
  unfold with_suffix in Hws. repeat case_match; by simplify_eq.
Qed.

(** ** A new job *)

(** X19: on a run of the service, when the normalisation returns, the
    handler puts one job at the end of the queue: it carries the id
    drawn for the call, the normalised path and the two hints as they
    were given, and a future that is pending and is not the future of
    any job submitted before. *)
Theorem new_job_has_fresh_future fs0 evs rid tid source lang prm run normalized :
  let s := exec (init fs0) evs in
  requests s !! rid = Some (Converting tid source lang prm) →
  (convert_audio_to_whisper_format source run (fs s)).2 = Ok normalized →
  let s' := step s (EvConverted rid run) in
  let job := mkTask tid normalized lang prm (next_future s) in
  queue s' = queue s ++ [job]
  ∧ submitted s' = submitted s ++ [job]
  ∧ requests s' !! rid = Some (Waiting tid (future job))
  ∧ futures s' (future job) = Pending
  ∧ Forall (λ t, future t ≠ future job) (submitted s).
Proof.
  intros s Hr Hconv.
  destruct (exec_Inv_jobs (init fs0) evs (init_Inv_jobs fs0)) as (Hn & Hi & _).
  destruct (exec_Inv_wait (init fs0) evs (init_Inv fs0) (init_Inv_jobs fs0)
              (init_Inv_wait fs0)) as (Hfresh & _).
  fold s in Hn, Hi, Hfresh.
  simpl. unfold transcribe_converted. rewrite Hr.
  destruct (convert_audio_to_whisper_format source run (fs s)) as [disk r].
  simpl in Hconv. subst r. simpl.
  split_and!; [done..| | |].
  - apply list_lookup_insert_eq. by eapply lookup_lt_Some.
  - by apply Hfresh.
  - apply Forall_forall. intros t [i Hl]%list_elem_of_lookup.
    rewrite (Hi _ _ Hl), Hn. apply lookup_lt_Some in Hl. lia.
Qed.

(** ** After shutdown *)

Lemma halted_noop s e :
  halted s →
  match e with
  | EvStartup | EvShutdown | EvWorkerGet _ | EvWhisperDone _ _ => step s e = s
  | _ => True
  end.
Proof.
  intros [[w0 Hw0] Hall].
  assert (∀ w, tasks s !! w = Some Stopped ∨ tasks s !! w = None) as Hpc.
  { intros w. destruct (tasks s !! w) as [pc|] eqn:Hl; [left|by right].
    by rewrite (proj1 (Forall_lookup _ _) Hall _ _ Hl). }
  destruct e; simpl; try done.
  - unfold startup_event. rewrite Hw0. by destruct (negb _).
  - unfold shutdown_event, cancel_worker. rewrite Hw0. by destruct (Hpc w0) as [-> | ->].
  - unfold worker_get. by destruct (Hpc w) as [-> | ->].
  - unfold worker_resume. by destruct (Hpc w) as [-> | ->].
Qed.

Lemma step_waiting_after_halt s e rid tid fut :
  halted s → Inv_wait s →
  (requests s !! rid = Some (Waiting tid fut) ∧ futures s fut = Pending)
  ∨ requests s !! rid
    = Some (Returned (Raise (Exn (HTTPException 504) (lit "Transcription timed out")))) →
  (requests (step s e) !! rid = Some (Waiting tid fut) ∧ futures (step s e) fut = Pending)
  ∨ requests (step s e) !! rid
    = Some (Returned (Raise (Exn (HTTPException 504) (lit "Transcription timed out")))).
Proof.
  intros Hh (_ & _ & Huniq & _) [[Hr Hp]|Hret]; [|right; by apply step_returned_final].
  pose proof (halted_noop s e Hh) as Hnoop.
  assert (rid < length (requests s)) as Hlt by (by eapply lookup_lt_Some).
  destruct e; try (rewrite Hnoop; by left); simpl.
  - unfold transcribe_begin. left.
    destruct (verify_token authorization); simpl; (split; [|done]);
      by apply lookup_app_l_Some.
  - unfold transcribe_converted, set_request, set_fs. left.
    destruct (requests s !! rid0) as [[tid0 source lang prm| |]|] eqn:Hr0; [|done..].
    assert (rid ≠ rid0) by congruence.
    destruct (convert_audio_to_whisper_format source run (fs s)) as [disk [normalized|e]];
      simpl; by rewrite list_lookup_insert_ne.
  - unfold transcribe_deliver, set_request. left.
    destruct (requests s !! rid0) as [[| tid0 fut0 |]|] eqn:Hr0; [done| |done..].
    destruct (decide (rid0 = rid)) as [->|Hne].
    + rewrite Hr in Hr0. injection Hr0 as <- <-. by rewrite Hp.
    + destruct (done _); simpl; [|done]. by rewrite list_lookup_insert_ne.
  - unfold transcribe_timeout, set_request, set_futures.
    destruct (requests s !! rid0) as [[| tid0 fut0 |]|] eqn:Hr0; [by left| |by left..].
    destruct (decide (rid0 = rid)) as [->|Hne].
    + rewrite Hr in Hr0. injection Hr0 as <- <-. rewrite Hp. simpl. right.
      by apply list_lookup_insert_eq.
    + left. destruct (done (futures s fut0)) eqn:Hd; simpl; [done|].
      rewrite list_lookup_insert_ne by done. split; [done|].
      unfold cancel, fut_update. rewrite Hd.
      case_bool_decide; [|done]. subst fut0. by destruct (Huniq _ _ _ _ _ Hr0 Hr).
Qed.

(** X20: a handler that is still waiting on a pending future when the
    shutdown handler has cancelled the worker is never answered by the
    worker: whatever happens afterwards it either still waits on the
    pending future or has ended with the 504 of its deadline. *)
Theorem waiting_after_shutdown_times_out fs0 evs evs' rid tid fut :
  let s := exec (init fs0) (evs ++ [EvShutdown]) in
  is_Some (worker_task s) →
  requests s !! rid = Some (Waiting tid fut) →
  futures s fut = Pending →
  let s' := exec s evs' in
  (requests s' !! rid = Some (Waiting tid fut) ∧ futures s' fut = Pending)
  ∨ requests s' !! rid
    = Some (Returned (Raise (Exn (HTTPException 504) (lit "Transcription timed out")))).
Proof.
  intros s Hsome Hr Hp.
  assert (halted s) as Hh.
  { split; [done|]. unfold s in *. rewrite exec_snoc in *.
    rewrite shutdown_stops; [by repeat constructor|apply exec_Inv, init_Inv
                            |apply exec_no_crash|done]. }
  assert (Inv s ∧ Inv_jobs s ∧ Inv_wait s) as HI.
  { split_and!; [apply exec_Inv, init_Inv|apply exec_Inv_jobs, init_Inv_jobs|].
    apply exec_Inv_wait; [apply init_Inv|apply init_Inv_jobs|apply init_Inv_wait]. }
  assert ((requests s !! rid = Some (Waiting tid fut) ∧ futures s fut = Pending)
          ∨ requests s !! rid
            = Some (Returned (Raise (Exn (HTTPException 504)
                                       (lit "Transcription timed out"))))) as HR
    by (by left).
  clear Hsome Hr Hp. simpl. generalize dependent s. intros s.
  induction evs' as [|e evs' IH] using rev_ind; intros Hh (HI & HJ & HW) HR; [done|].
  rewrite exec_snoc.
  assert (halted (exec s evs') ∧ Inv (exec s evs') ∧ Inv_jobs (exec s evs')
          ∧ Inv_wait (exec s evs')) as (Hh' & HI' & HJ' & HW').
  { clear IH HR. induction evs' as [|e' evs' (? & ? & ? & ?)] using rev_ind; [done|].
    rewrite exec_snoc. split_and!;
      [by apply step_halted|by apply step_Inv|by apply step_Inv_jobs|by apply step_Inv_wait]. }
  apply step_waiting_after_halt; [done..|]. by apply IH.
Qed.

(** ** A whole request *)

(** X21: on a run of the service with the worker idle at an empty
    queue, an authorised upload whose conversion succeeds, followed to
    its end, is answered with what [run_whisper] gave (the text, or the
    500 carrying the exception's text), and leaves neither its staged
    file nor its normalised file on disk; the queue is empty again and
    the worker is back at it. *)
Theorem complete_request_leaves_no_files
    fs0 evs w authorization filename lang prm uuid rnd conv run :
  let s := exec (init fs0) evs in
  verify_token authorization = Ok () →
  tasks s !! w = Some AwaitGet → queue s = [] →
  ff_returncode conv = 0%Z → ff_wrote_output conv = true →
  let rid := length (requests s) in
  let staged := staged_path rnd (source_suffix filename) in
  let normalized := mkPath TMPDIR (lit "tmp" ++ rnd ++ lit ".normalized.wav") in
  let job := mkTask uuid normalized lang prm (next_future s) in
  let s' := exec s [EvRequest authorization filename lang prm uuid rnd;
                    EvConverted rid conv; EvWorkerGet w;
                    EvWhisperDone w run; EvDeliver rid] in
  requests s' !! rid = Some (Returned (transcribe_reply uuid (run_whisper job run)))
  ∧ fs s' = fs s ∖ {[ staged ]} ∖ {[ normalized ]}
  ∧ queue s' = [] ∧ tasks s' !! w = Some AwaitGet.
Proof.
  intros s Hauth Hw Hq Hrc Hwrote rid staged normalized job.
  pose proof (staged_with_suffix rnd filename) as Hws. fold staged normalized in Hws.
  pose proof (with_suffix_normalized_ne _ _ Hws) as Hne.
  destruct (exec_Inv_wait (init fs0) evs (init_Inv fs0) (init_Inv_jobs fs0)
              (init_Inv_wait fs0)) as (Hfresh & _).
  fold s in Hfresh. specialize (Hfresh (next_future s) (le_n _)).
  assert (w < length (tasks s)) as Hwlt by (by eapply lookup_lt_Some).
  unfold exec. cbn [fold_left step].
  set (s1 := transcribe_begin authorization filename lang prm uuid rnd s).
  assert (s1 = mkState (queue s) (worker_task s) (tasks s) (futures s) (next_future s)
                 ({[ staged ]} ∪ fs s)
                 (requests s ++ [Converting uuid staged lang prm])
                 (submitted s) (started s)) as Hs1
    by (unfold s1, transcribe_begin; by rewrite Hauth).
  set (s2 := transcribe_converted rid conv s1).
  assert (s2 = mkState [job] (worker_task s) (tasks s) (futures s) (S (next_future s))
                 (({[ normalized ]} ∪ ({[ staged ]} ∪ fs s)) ∖ {[ staged ]})
                 (requests s ++ [Waiting uuid (next_future s)])
                 (submitted s ++ [job]) (started s)) as Hs2.
  { unfold s2, transcribe_converted. rewrite Hs1.
    cbn [requests fs queue next_future worker_task tasks futures submitted started].
    rewrite lookup_app_r by done. unfold rid. rewrite Nat.sub_diag.
    cbn [lookup list_lookup].
    destruct (convert_spec staged conv ({[ staged ]} ∪ fs s) normalized Hws)
      as (Hdisk & Hiff & Hok).
    rewrite Hwrote in Hdisk, Hiff.
    destruct (convert_audio_to_whisper_format staged conv ({[ staged ]} ∪ fs s))
      as [disk r]. simpl in Hdisk, Hiff, Hok. subst disk.
    destruct (raises r) eqn:Hraise.
    - destruct (proj1 Hiff eq_refl) as [?|Hnin]; [done|]. destruct Hnin. set_solver.
    - rewrite (Hok eq_refl), Hq. cbn [app]. f_equal.
      rewrite insert_app_r_alt by done. by rewrite Nat.sub_diag. }
  set (s3 := worker_get w s2).
  assert (s3 = mkState [] (worker_task s) (<[w := Running job]> (tasks s)) (futures s)
                 (S (next_future s))
                 (({[ normalized ]} ∪ ({[ staged ]} ∪ fs s)) ∖ {[ staged ]})
                 (requests s ++ [Waiting uuid (next_future s)])
                 (submitted s ++ [job]) (started s ++ [job])) as Hs3.
  { unfold s3, worker_get. rewrite Hs2. cbn [tasks queue]. by rewrite Hw. }
  set (s4 := worker_resume w run s3).
  set (outcome := match run_whisper job run with
                  | Ok text => Finished text
                  | Raise x => Failed x
                  end).
  assert (s4 = mkState [] (worker_task s) (<[w := AwaitGet]> (tasks s))
                 (fut_update (next_future s) outcome (futures s))
                 (S (next_future s))
                 ((({[ normalized ]} ∪ ({[ staged ]} ∪ fs s)) ∖ {[ staged ]})
                    ∖ {[ normalized ]})
                 (requests s ++ [Waiting uuid (next_future s)])
                 (submitted s ++ [job]) (started s ++ [job])) as Hs4.
  { unfold s4, worker_resume. rewrite Hs3. cbn [tasks futures fs].
    rewrite list_lookup_insert_eq by done.
    rewrite worker_try_pending by done.
    unfold set_worker, set_futures, set_fs, worker_finally. cbn.
    by rewrite list_insert_insert_eq. }
  assert (transcribe_deliver rid s4
          = mkState [] (worker_task s) (<[w := AwaitGet]> (tasks s))
              (fut_update (next_future s) outcome (futures s))
              (S (next_future s))
              ((({[ normalized ]} ∪ ({[ staged ]} ∪ fs s)) ∖ {[ staged ]})
                 ∖ {[ normalized ]})
              (requests s ++ [Returned (transcribe_reply uuid (run_whisper job run))])
              (submitted s ++ [job]) (started s ++ [job])) as Hs5.
  { unfold transcribe_deliver. rewrite Hs4. cbn [requests futures].
    rewrite lookup_app_r by done. unfold rid. rewrite Nat.sub_diag.
    cbn [lookup list_lookup].
    assert (fut_update (next_future s) outcome (futures s) (next_future s) = outcome)
      as -> by (unfold fut_update; by rewrite bool_decide_eq_true_2).
    assert (done outcome = true) as ->
      by (unfold outcome; by destruct (run_whisper job run)).
    unfold set_request.
    cbn [requests fs queue tasks worker_task futures next_future submitted started].
    f_equal. rewrite insert_app_r_alt by done. rewrite Nat.sub_diag.
    cbn [insert list_insert]. do 3 f_equal.
    unfold outcome. by destruct (run_whisper job run). }
  rewrite Hs5. cbn [requests fs queue tasks].
  split_and!; [|set_solver|done|by apply list_lookup_insert_eq].
  rewrite lookup_app_r by done. by rewrite Nat.sub_diag.
Qed.

End Service.

(** ** The statements on the sample run *)

Example sample_running_job :
  let s := exec sample_token sample_tmpdir (init ∅) trace_running in
  tasks s = [Running sample_job]
  ∧ requests s = [Waiting (lit "job-1") 0]
  ∧ queue s = []
  ∧ elements (fs s) = [audio_path sample_job].
Proof. by vm_compute. Qed.

Example sample_delivery :
  let s := exec sample_token sample_tmpdir (init ∅)
             (trace_running ++ [EvWhisperDone 0 whisper_ok; EvDeliver 0]) in
  requests s = [Returned (Ok (mkResponse (lit "job-1") (lit "hello world")))]
  ∧ elements (fs s) = [].
Proof. by vm_compute. Qed.

Example sample_failure_message :
  run_whisper sample_job whisper_failed
  = Raise (Exn RuntimeError (lit "whisper.cpp failed with code 1: failed to load model")).
Proof. by vm_compute. Qed.

Example sample_conversion_failure :
  let s := exec sample_token sample_tmpdir (init ∅)
             (trace_converting ++ [EvConverted 0 ffmpeg_failed]) in
  requests s
  = [Returned (Raise (Exn RuntimeError
       (lit "audio conversion failed: Invalid data found when processing input")))]
  ∧ queue s = []
  ∧ elements (fs s) = [].
Proof. by vm_compute. Qed.

Example sample_abandoned_job :
  let s := exec sample_token sample_tmpdir (init ∅) trace_abandoned in
  tasks s = [Running sample_job]
  ∧ requests s
    = [Returned (Raise (Exn (HTTPException 504) (lit "Transcription timed out")))]
  ∧ futures s 0 = Cancelled.
Proof. by vm_compute. Qed.

Lemma completion_resolved_once_witness :
  let s := exec sample_token sample_tmpdir (init ∅)
             (trace_running ++ [EvWhisperDone 0 whisper_ok]) in
  futures s 0 = Finished (lit "hello world")
  ∧ futures (exec sample_token sample_tmpdir s
               [EvTimeout 0; EvWhisperDone 0 whisper_failed; EvShutdown]) 0
    = futures s 0.
Proof.
  intros s. split; [by vm_compute|].
  apply (proj1 (completion_resolved_once sample_token sample_tmpdir)).
  by vm_compute.
Defined.

Lemma fifo_one_at_a_time_witness :
  let s := exec sample_token sample_tmpdir (init ∅) trace_two_waiting in
  let s1 := step sample_token sample_tmpdir s (EvWorkerGet 0) in
  let s2 := exec sample_token sample_tmpdir (init ∅)
              (trace_two_waiting ++ [EvWorkerGet 0; EvWhisperDone 0 whisper_ok]) in
  let s3 := step sample_token sample_tmpdir s2 (EvWorkerGet 0) in
  (tasks s !! 0 = Some AwaitGet ∧ queue s = [sample_job; sample_job2])
  ∧ (submitted s = started s ++ queue s
     ∧ tasks s1 !! 0 = Some (Running sample_job)
     ∧ started s1 = started s ++ [sample_job]
     ∧ queue s1 = [sample_job2])
  ∧ (tasks s2 !! 0 = Some AwaitGet ∧ queue s2 = [sample_job2]
     ∧ started s2 = [sample_job])
  ∧ (submitted s2 = started s2 ++ queue s2
     ∧ tasks s3 !! 0 = Some (Running sample_job2)
     ∧ started s3 = started s2 ++ [sample_job2]
     ∧ queue s3 = []
     ∧ all_done (futures s2) (started s2)).
Proof.
  intros s s1 s2 s3.
  assert (tasks s !! 0 = Some AwaitGet) as Hw by (by vm_compute).
  assert (queue s = [sample_job; sample_job2]) as Hq by (by vm_compute).
  assert (tasks s2 !! 0 = Some AwaitGet) as Hw2 by (by vm_compute).
  assert (queue s2 = [sample_job2]) as Hq2 by (by vm_compute).
  assert (started s2 = [sample_job]) as Hs2 by (by vm_compute).
  split; [exact (conj Hw Hq)|].
  split.
  { destruct (fifo_one_at_a_time sample_token sample_tmpdir ∅ trace_two_waiting)
      as (Hsub & _ & Hget).
    destruct (Hget 0 sample_job [sample_job2] Hw Hq) as (Hrun & Hst & Hrest & _).
    exact (conj Hsub (conj Hrun (conj Hst Hrest))). }
  split; [exact (conj Hw2 (conj Hq2 Hs2))|].
  destruct (fifo_one_at_a_time sample_token sample_tmpdir ∅
              (trace_two_waiting ++ [EvWorkerGet 0; EvWhisperDone 0 whisper_ok]))
    as (Hsub & _ & Hget).
  destruct (Hget 0 sample_job2 [] Hw2 Hq2) as (Hrun & Hst & Hrest & _ & Hdone).
  exact (conj Hsub (conj Hrun (conj Hst (conj Hrest Hdone)))).
Defined.

Lemma worker_unlinks_input_witness :
  let s := exec sample_token sample_tmpdir (init ∅) trace_running in
  let s' := step sample_token sample_tmpdir s (EvWhisperDone 0 whisper_failed) in
  tasks s !! 0 = Some (Running sample_job)
  ∧ audio_path sample_job ∉ fs s'.
Proof.
  intros s s'.
  assert (tasks s !! 0 = Some (Running sample_job)) as Hw by (by vm_compute).
  split; [exact Hw|].
  exact (proj1 (worker_unlinks_input sample_token sample_tmpdir s 0
                  whisper_failed sample_job Hw)).
Defined.

(** C4 as stated fails: a job whose handler gave up at the deadline has
    a cancelled future, and the exception of its run is not stored in
    it. *)
Lemma failure_not_stored_when_abandoned :
  ¬ (∀ tok tmp s w run task e,
       tasks s !! w = Some (Running task) →
       run_whisper task run = Raise e →
       futures (step tok tmp s (EvWhisperDone w run)) (future task) = Failed e).
Proof.
  intros H.
  assert (tasks (exec sample_token sample_tmpdir (init ∅) trace_abandoned) !! 0
          = Some (Running sample_job)) as Hw by (by vm_compute).
  specialize (H sample_token sample_tmpdir _ 0 whisper_failed sample_job _
                Hw sample_failure_message).
  vm_compute in H. discriminate H.
Qed.

Lemma failure_stays_in_worker_witness :
  let s := exec sample_token sample_tmpdir (init ∅) trace_running in
  let s' := step sample_token sample_tmpdir s (EvWhisperDone 0 whisper_failed) in
  tasks s !! 0 = Some (Running sample_job)
  ∧ wh_returncode whisper_failed ≠ 0%Z
  ∧ ∃ e, run_whisper sample_job whisper_failed = Raise e
       ∧ tasks s' !! 0 = Some AwaitGet
       ∧ futures s' 0 = Failed e.
Proof.
  intros s s'.
  assert (tasks s !! 0 = Some (Running sample_job)) as Hw by (by vm_compute).
  assert (wh_returncode whisper_failed ≠ 0%Z) as Hrc by done.
  assert (futures s (future sample_job) = Pending) as Hp by (by vm_compute).
  split; [exact Hw|]. split; [exact Hrc|].
  destruct (failure_stays_in_worker sample_token sample_tmpdir s 0 whisper_failed
              sample_job Hw (or_introl Hrc)) as (e & He & Hback & Hset & _).
  exists e. split; [exact He|]. split; [exact Hback|exact (Hset Hp)].
Defined.

(** C5 as stated fails: the run of a job can succeed after its handler
    gave up at the deadline, and then no handler returns the text. *)
Lemma success_not_returned_after_deadline :
  ¬ (∀ tok tmp fs0 evs w run task text,
       let s := exec tok tmp (init fs0) evs in
       tasks s !! w = Some (Running task) →
       wh_returncode run = 0%Z →
       artifact_text (wh_artifact run) = Some text →
       ∃ rid,
         requests (step tok tmp (step tok tmp s (EvWhisperDone w run)) (EvDeliver rid))
           !! rid
         = Some (Returned (Ok (mkResponse (task_id task) (strip text))))).
Proof.
  intros H.
  assert (tasks (exec sample_token sample_tmpdir (init ∅) trace_abandoned) !! 0
          = Some (Running sample_job)) as Hw by (by vm_compute).
  destruct (H sample_token sample_tmpdir ∅ trace_abandoned 0 whisper_ok sample_job
              (lit " hello world ") Hw eq_refl eq_refl) as [rid Hrid].
  destruct rid as [|rid]; vm_compute in Hrid; discriminate Hrid.
Qed.

Lemma success_reaches_caller_witness :
  let s := exec sample_token sample_tmpdir (init ∅) trace_running in
  let s' := step sample_token sample_tmpdir
              (step sample_token sample_tmpdir s (EvWhisperDone 0 whisper_ok))
              (EvDeliver 0) in
  tasks s !! 0 = Some (Running sample_job)
  ∧ requests s !! 0 = Some (Waiting (lit "job-1") 0)
  ∧ requests s' !! 0
    = Some (Returned (Ok (mkResponse (lit "job-1") (lit "hello world")))).
Proof.
  intros s s'.
  assert (tasks s !! 0 = Some (Running sample_job)) as Hw by (by vm_compute).
  assert (requests s !! 0 = Some (Waiting (lit "job-1") (future sample_job))) as Hr
    by (by vm_compute).
  split; [exact Hw|]. split; [exact Hr|].
  exact (proj1 (success_reaches_caller sample_token sample_tmpdir ∅ trace_running 0
                  whisper_ok sample_job 0 (lit "job-1") (lit " hello world ")
                  Hw Hr eq_refl eq_refl)).
Defined.

Lemma timeout_abandons_only_the_wait_witness :
  let s := exec sample_token sample_tmpdir (init ∅) trace_waiting in
  let s' := step sample_token sample_tmpdir s (EvTimeout 0) in
  requests s !! 0 = Some (Waiting (lit "job-1") 0)
  ∧ futures s 0 = Pending
  ∧ requests s' !! 0
    = Some (Returned (Raise (Exn (HTTPException 504) (lit "Transcription timed out"))))
  ∧ queue s' = queue s.
Proof.
  intros s s'.
  assert (requests s !! 0 = Some (Waiting (lit "job-1") 0)) as Hr by (by vm_compute).
  assert (futures s 0 = Pending) as Hp by (by vm_compute).
  split; [exact Hr|]. split; [exact Hp|].
  destruct (timeout_abandons_only_the_wait sample_token sample_tmpdir s 0
              (lit "job-1") 0 Hr Hp) as (Hreply & _ & Hq & _).
  split; [exact Hreply|exact Hq].
Defined.

Lemma normalization_failure_witness :
  ∃ normalized,
    with_suffix sample_source (lit ".normalized.wav") = Ok normalized
    ∧ raises (convert_audio_to_whisper_format sample_source ffmpeg_failed ∅).2 = true.
Proof.
  destruct (normalization_failure sample_token sample_tmpdir (lit "k3x9q_ab")
              (Some (lit "memo.mp3")) ffmpeg_failed) as (normalized & Hws & Hconv & _).
  exists normalized. split; [exact Hws|].
  apply (Hconv ∅). left. done.
Defined.

Lemma startup_idempotent_witness :
  let s := exec sample_token sample_tmpdir (init ∅) [EvStartup] in
  length (tasks (exec sample_token sample_tmpdir (init ∅)
                   [EvStartup; EvStartup; EvShutdown; EvStartup])) ≤ 1
  ∧ step sample_token sample_tmpdir s EvStartup = s.
Proof.
  intros s.
  destruct (startup_idempotent sample_token sample_tmpdir) as (Hnoop & _ & _ & Hone).
  split; [apply Hone|]. apply Hnoop. by exists 0.
Defined.

Lemma staged_upload_removed_witness :
  let s := exec sample_token sample_tmpdir (init ∅) trace_converting in
  let s' := step sample_token sample_tmpdir s (EvConverted 0 ffmpeg_ok) in
  requests s !! 0 = Some (Converting (lit "job-1") sample_source None None)
  ∧ sample_source ∉ fs s'.
Proof.
  intros s s'.
  assert (requests s !! 0 = Some (Converting (lit "job-1") sample_source None None))
    as Hr by (by vm_compute).
  split; [exact Hr|].
  exact (proj1 (staged_upload_removed sample_token sample_tmpdir s 0 (lit "job-1")
                  sample_source None None ffmpeg_ok Hr)).
Defined.

Lemma verify_token_rejects_witness :
  verify_token [] (lit "Bearer ")
  = Raise (Exn (HTTPException 401) (lit "Invalid or missing bearer token"))
  ∧ verify_token sample_token (lit "Bearer s3cret") = Ok ().
Proof.
  split.
  - exact (proj2 (proj2 (verify_token_rejects [] (lit "Bearer "))) eq_refl).
  - by vm_compute.
Defined.

(** ** The further statements on the sample run *)

Lemma shutdown_is_final_witness :
  let s := exec sample_token sample_tmpdir (init ∅) (trace_running ++ [EvShutdown]) in
  let s' := exec sample_token sample_tmpdir s
              [EvStartup; EvWorkerGet 0; EvWhisperDone 0 whisper_ok] in
  is_Some (worker_task s) ∧ tasks s' = [Stopped] ∧ started s' = started s.
Proof.
  intros s s'.
  assert (is_Some (worker_task s)) as Hsome by (by exists 0).
  split; [exact Hsome|].
  destruct (shutdown_is_final sample_token sample_tmpdir ∅ trace_running
              [EvStartup; EvWorkerGet 0; EvWhisperDone 0 whisper_ok] Hsome)
    as (Ht & Ht' & Hst & _).
  split; [exact (eq_trans Ht' Ht)|exact Hst].
Defined.

Lemma shutdown_mid_job_witness :
  let s := exec sample_token sample_tmpdir (init ∅) trace_running in
  worker_task s = Some 0 ∧ tasks s !! 0 = Some (Running sample_job)
  ∧ audio_path sample_job ∉ fs (step sample_token sample_tmpdir s EvShutdown).
Proof.
  intros s.
  assert (worker_task s = Some 0) as Hwt by (by vm_compute).
  assert (tasks s !! 0 = Some (Running sample_job)) as Hw by (by vm_compute).
  split; [exact Hwt|]. split; [exact Hw|].
  exact (proj1 (shutdown_mid_job sample_token sample_tmpdir s 0 sample_job Hwt Hw)).
Defined.

Lemma failure_reaches_caller_witness :
  let s := exec sample_token sample_tmpdir (init ∅) trace_running in
  let s' := step sample_token sample_tmpdir
              (step sample_token sample_tmpdir s (EvWhisperDone 0 whisper_failed))
              (EvDeliver 0) in
  tasks s !! 0 = Some (Running sample_job)
  ∧ requests s !! 0 = Some (Waiting (lit "job-1") 0)
  ∧ requests s' !! 0
    = Some (Returned (Raise (Exn (HTTPException 500)
         (lit "whisper.cpp failed with code 1: failed to load model")))).
Proof.
  intros s s'.
  assert (tasks s !! 0 = Some (Running sample_job)) as Hw by (by vm_compute).
  assert (requests s !! 0 = Some (Waiting (lit "job-1") (future sample_job))) as Hr
    by (by vm_compute).
  split; [exact Hw|]. split; [exact Hr|].
  exact (proj1 (failure_reaches_caller sample_token sample_tmpdir ∅ trace_running 0
                  whisper_failed sample_job 0 (lit "job-1") _
                  Hw Hr sample_failure_message)).
Defined.

Lemma worker_drains_queue_witness :
  let s := exec sample_token sample_tmpdir (init ∅) trace_two_waiting in
  let s' := exec sample_token sample_tmpdir s
              (worker_turns 0 [whisper_ok; whisper_failed]) in
  tasks s !! 0 = Some AwaitGet ∧ queue s = [sample_job; sample_job2]
  ∧ queue s' = [] ∧ started s' = started s ++ queue s.
Proof.
  intros s s'.
  assert (tasks s !! 0 = Some AwaitGet) as Hw by (by vm_compute).
  assert (queue s = [sample_job; sample_job2]) as Hq by (by vm_compute).
  assert (length [whisper_ok; whisper_failed] = length (queue s)) as Hlen
    by (by rewrite Hq).
  split; [exact Hw|]. split; [exact Hq|].
  destruct (worker_drains_queue sample_token sample_tmpdir 0
              [whisper_ok; whisper_failed] s Hw Hlen) as (Hq' & Hst & _).
  split; [exact Hq'|exact Hst].
Defined.

Lemma waiting_call_ends_three_ways_witness :
  let s := exec sample_token sample_tmpdir (init ∅) trace_waiting in
  let r : result TranscriptionResponse :=
    Raise (Exn (HTTPException 500)
               (lit "whisper.cpp failed with code 1: failed to load model")) in
  requests s !! 0 = Some (Waiting (lit "job-1") 0)
  ∧ requests (exec sample_token sample_tmpdir s
                [EvWorkerGet 0; EvWhisperDone 0 whisper_failed; EvDeliver 0]) !! 0
    = Some (Returned r)
  ∧ ((∃ text, r = Ok (mkResponse (lit "job-1") text))
     ∨ r = Raise gateway_timeout
     ∨ (∃ msg, r = Raise (Exn (HTTPException 500) msg))).
Proof.
  intros s r.
  assert (requests s !! 0 = Some (Waiting (lit "job-1") 0)) as Hw by (by vm_compute).
  assert (requests (exec sample_token sample_tmpdir s
                      [EvWorkerGet 0; EvWhisperDone 0 whisper_failed; EvDeliver 0]) !! 0
          = Some (Returned r)) as Hr by (by vm_compute).
  split; [exact Hw|]. split; [exact Hr|].
  exact (waiting_call_ends_three_ways sample_token sample_tmpdir ∅ trace_waiting
           [EvWorkerGet 0; EvWhisperDone 0 whisper_failed; EvDeliver 0]
           0 (lit "job-1") 0 r Hw Hr).
Defined.

Lemma empty_token_service_is_inert_witness :
  let s := exec [] sample_tmpdir (init ∅)
             [EvStartup; sample_request; EvConverted 0 ffmpeg_ok; EvWorkerGet 0] in
  tasks s = [] ∧ queue s = [] ∧ fs s = ∅.
Proof.
  intros s.
  destruct (empty_token_service_is_inert [] sample_tmpdir ∅
              [EvStartup; sample_request; EvConverted 0 ffmpeg_ok; EvWorkerGet 0]
              eq_refl) as (_ & Ht & Hq & Hfs & _).
  split; [exact Ht|]. split; [exact Hq|exact Hfs].
Defined.

Lemma whisper_text_is_trimmed_witness :
  run_whisper sample_job whisper_ok = Ok (lit "hello world")
  ∧ trimmed (lit "hello world").
Proof.
  assert (run_whisper sample_job whisper_ok = Ok (lit "hello world")) as Hrun
    by (by vm_compute).
  split; [exact Hrun|].
  exact (proj1 (whisper_text_is_trimmed sample_job whisper_ok _ Hrun)).
Defined.

Lemma conversion_error_text_witness :
  let e := Exn RuntimeError
             (lit "audio conversion failed: Invalid data found when processing input") in
  (convert_audio_to_whisper_format sample_source ffmpeg_failed ∅).2 = Raise e
  ∧ ((∃ reason, e = Exn UnicodeDecodeError reason)
     ∨ (∃ detail,
           e = Exn RuntimeError (lit "audio conversion failed: " ++ detail)
           ∧ detail ≠ [] ∧ trimmed detail
           ∧ (∀ err out,
                ff_stderr ffmpeg_failed = Text err → ff_stdout ffmpeg_failed = Text out →
                detail = or_str (strip err)
                           (or_str (strip out) (lit "unknown ffmpeg error"))))).
Proof.
  intros e.
  assert ((convert_audio_to_whisper_format sample_source ffmpeg_failed ∅).2 = Raise e)
    as Hconv by (by vm_compute).
  assert (path_name sample_source ≠ []) as Hn by done.
  split; [exact Hconv|].
  exact (conversion_error_text sample_source ffmpeg_failed ∅ e Hn Hconv).
Defined.

Lemma source_suffix_shape_witness :
  source_suffix (Some (lit "../up/memo.final.mp3")) = lit ".mp3"
  ∧ ∃ rest, source_suffix (Some (lit "../up/memo.final.mp3")) = dot :: rest
            ∧ rest ≠ [] ∧ (dot ∉ rest) ∧ (slash ∉ rest).
Proof.
  split; [by vm_compute|].
  exact (proj1 (source_suffix_shape (Some (lit "../up/memo.final.mp3")))).
Defined.

Lemma normalized_path_of_staged_witness :
  with_suffix sample_source (lit ".normalized.wav") = Ok (audio_path sample_job).
Proof.
  exact (proj1 (proj2 (normalized_path_of_staged sample_tmpdir (lit "k3x9q_ab")
                         (Some (lit "memo.mp3"))))).
Defined.

Lemma files_removed_only_by_owner_witness :
  let s := exec sample_token sample_tmpdir (init ∅) trace_running in
  let e := EvWhisperDone 0 whisper_ok in
  let p := audio_path sample_job in
  p ∈ fs s ∧ (p ∉ fs (step sample_token sample_tmpdir s e))
  ∧ ∃ w run task, e = EvWhisperDone w run
                  ∧ tasks s !! w = Some (Running task) ∧ audio_path task = p.
Proof.
  intros s e p.
  assert (p ∈ fs s) as Hin by (apply elem_of_elements; vm_compute; set_solver).
  assert (p ∉ fs (step sample_token sample_tmpdir s e)) as Hout
    by (rewrite <- elem_of_elements; vm_compute; set_solver).
  split; [exact Hin|]. split; [exact Hout|].
  destruct (files_removed_only_by_owner sample_token sample_tmpdir s e p Hin Hout)
    as [(? & ? & ? & ? & ? & He & _)|[Hrun|(? & ? & He & _)]];
    [discriminate He|exact Hrun|discriminate He].
Defined.

Lemma failed_conversion_leaves_artifact_witness :
  let s := exec sample_token sample_tmpdir (init ∅) trace_converting in
  let s' := step sample_token sample_tmpdir s (EvConverted 0 ffmpeg_failed_after_writing) in
  requests s !! 0 = Some (Converting (lit "job-1") sample_source None None)
  ∧ audio_path sample_job ∈ fs s' ∧ queue s' = queue s.
Proof.
  intros s s'.
  assert (requests s !! 0 = Some (Converting (lit "job-1") sample_source None None))
    as Hr by (by vm_compute).
  assert (with_suffix sample_source (lit ".normalized.wav") = Ok (audio_path sample_job))
    as Hws by (by vm_compute).
  assert (ff_returncode ffmpeg_failed_after_writing ≠ 0%Z) as Hrc by done.
  split; [exact Hr|].
  destruct (failed_conversion_leaves_artifact sample_token sample_tmpdir s 0 (lit "job-1")
              sample_source None None ffmpeg_failed_after_writing (audio_path sample_job)
              Hr Hws Hrc eq_refl) as (Hin & _ & Hq & _).
  split; [exact Hin|exact Hq].
Defined.

Lemma whisper_failure_detail_witness :
  wh_returncode whisper_failed ≠ 0%Z
  ∧ ∀ a, run_whisper sample_job (WhisperRun 1 (Text []) (Text (lit "failed to load model")) a)
         = run_whisper sample_job whisper_failed.
Proof.
  assert (wh_returncode whisper_failed ≠ 0%Z) as Hrc by done.
  split; [exact Hrc|].
  exact (proj1 (whisper_failure_detail sample_job whisper_failed Hrc)).
Defined.

Lemma whisper_cmd_hints_witness :
  let cmd := whisper_cmd (lit "whisper-cli") (lit "models/ggml-base.en.bin")
               sample_job2 (lit "/tmp/whisper-job-2-x/result") in
  length cmd = 10 ∧ cmd !! 8 = Some (lit "-l") ∧ cmd !! 9 = Some (lit "de").
Proof.
  intros cmd.
  destruct (whisper_cmd_hints (lit "whisper-cli") (lit "models/ggml-base.en.bin")
              sample_job2 (lit "/tmp/whisper-job-2-x/result"))
    as (_ & Hlen & _ & Hlang & _).
  split; [exact Hlen|]. exact (Hlang (lit "de") eq_refl ltac:(done)).
Defined.

Lemma jobs_are_unique_witness :
  let s := exec sample_token sample_tmpdir (init ∅) trace_two_waiting in
  future <$> submitted s = [0; 1] ∧ NoDup (submitted s).
Proof.
  intros s.
  destruct (jobs_are_unique sample_token sample_tmpdir ∅ trace_two_waiting)
    as (Hseq & Hnd & _).
  split; [exact Hseq|exact Hnd].
Defined.

Lemma ffmpeg_cmd_input_is_not_output_witness :
  ∃ normalized,
    with_suffix sample_source (lit ".normalized.wav") = Ok normalized
    ∧ path_str sample_source ≠ path_str normalized.
Proof.
  assert (path_name sample_source ≠ []) as Hn by done.
  destruct (ffmpeg_cmd_input_is_not_output (lit "ffmpeg") sample_source Hn)
    as (normalized & Hws & _ & _ & _ & _ & Hne).
  exists normalized. split; [exact Hws|exact Hne].
Defined.

Lemma new_job_has_fresh_future_witness :
  let s := exec sample_token sample_tmpdir (init ∅) trace_converting in
  let s' := step sample_token sample_tmpdir s (EvConverted 0 ffmpeg_ok) in
  requests s !! 0 = Some (Converting (lit "job-1") sample_source None None)
  ∧ queue s' = [sample_job] ∧ futures s' 0 = Pending.
Proof.
  intros s s'.
  assert (requests s !! 0 = Some (Converting (lit "job-1") sample_source None None))
    as Hr by (by vm_compute).
  assert ((convert_audio_to_whisper_format sample_source ffmpeg_ok (fs s)).2
          = Ok (audio_path sample_job)) as Hconv by (by vm_compute).
  split; [exact Hr|].
  destruct (new_job_has_fresh_future sample_token sample_tmpdir ∅ trace_converting 0
              (lit "job-1") sample_source None None ffmpeg_ok (audio_path sample_job)
              Hr Hconv) as (Hq & _ & _ & Hp & _).
  split; [exact Hq|exact Hp].
Defined.

Lemma waiting_after_shutdown_times_out_witness :
  let s := exec sample_token sample_tmpdir (init ∅) (trace_waiting ++ [EvShutdown]) in
  let s' := exec sample_token sample_tmpdir s
              [EvStartup; EvWorkerGet 0; EvDeliver 0; EvTimeout 0] in
  requests s !! 0 = Some (Waiting (lit "job-1") 0) ∧ futures s 0 = Pending
  ∧ ((requests s' !! 0 = Some (Waiting (lit "job-1") 0) ∧ futures s' 0 = Pending)
     ∨ requests s' !! 0 = Some (Returned (Raise gateway_timeout))).
Proof.
  intros s s'.
  assert (is_Some (worker_task s)) as Hsome by (by exists 0).
  assert (requests s !! 0 = Some (Waiting (lit "job-1") 0)) as Hr by (by vm_compute).
  assert (futures s 0 = Pending) as Hp by (by vm_compute).
  split; [exact Hr|]. split; [exact Hp|].
  exact (waiting_after_shutdown_times_out sample_token sample_tmpdir ∅ trace_waiting
           [EvStartup; EvWorkerGet 0; EvDeliver 0; EvTimeout 0] 0 (lit "job-1") 0
           Hsome Hr Hp).
Defined.

Lemma complete_request_leaves_no_files_witness :
  let s := exec sample_token sample_tmpdir (init ∅) [EvStartup] in
  let s' := exec sample_token sample_tmpdir s
              [sample_request; EvConverted 0 ffmpeg_ok; EvWorkerGet 0;
               EvWhisperDone 0 whisper_ok; EvDeliver 0] in
  tasks s !! 0 = Some AwaitGet ∧ queue s = []
  ∧ fs s' = fs s ∖ {[ sample_source ]} ∖ {[ audio_path sample_job ]}
  ∧ queue s' = [].
Proof.
  intros s s'.
  assert (verify_token sample_token (lit "Bearer s3cret") = Ok ()) as Hauth
    by (by vm_compute).
  assert (tasks s !! 0 = Some AwaitGet) as Hw by (by vm_compute).
  assert (queue s = []) as Hq by (by vm_compute).
  split; [exact Hw|]. split; [exact Hq|].
  destruct (complete_request_leaves_no_files sample_token sample_tmpdir ∅ [EvStartup] 0
              (lit "Bearer s3cret") (Some (lit "memo.mp3")) None None
              (lit "job-1") (lit "k3x9q_ab") ffmpeg_ok whisper_ok
              Hauth Hw Hq eq_refl eq_refl) as (_ & Hfs & Hq' & _).
  split; [exact Hfs|exact Hq'].
Defined.
